(** * Session layer of the agent console: store, message handler, socket manager

    A shallow embedding of
      - [frontend/src/stores/useStore.js]   (the zustand store and its actions),
      - [frontend/src/hooks/useWebSocket.js] (the socket hook: connect, the
        socket callbacks, the heartbeat watchdog and the message handler),
      - the two step filters of the Activity and ProcessDialog panels, the
        summary box and the status badges of the panels, and the send
        handler of the chat panel,
    followed by the properties the specification states about them and by
    further properties of the same code.

    The store is a record, the hook's refs and the browser objects they point
    to (sockets, pending timeouts, the console) form a [World], and every
    callback is a function on worlds.  Code that can raise runs in a small
    state-and-exception monad, so that a handler interrupted by a [TypeError]
    keeps the store writes it made before the exception, as the source does. *)

From Stdlib Require Import ZArith Lia Ascii String Permutation.
From stdpp Require Import base option list gmap strings pretty.

Local Open Scope string_scope.
Local Open Scope Z_scope.

(** ** JavaScript values *)

Inductive JsError := TypeError | SyntaxError | InvalidStateError.

Inductive Completion (A : Type) : Type :=
| Normal (a : A)
| Throw (e : JsError).
Arguments Normal {A} a.
Arguments Throw {A} e.

(** What the engine supplies for numbers.  IEEE doubles stay abstract: the
    handler only tests a number for truth and, in one place, prints it. *)
Class Numbers := {
  number : Type;
  number_truthy : number -> bool;
  number_to_string : number -> string
}.

#[warnings="-register-all"]
Inductive JsValue `{Numbers} : Type :=
| VUndefined
| VNull
| VBool (b : bool)
| VNumber (n : number)
| VString (s : string)
| VArray (items : list JsValue)
| VObject (props : gmap string JsValue).

(** What else the engine and the page supply: [String.prototype.trim],
    [JSON.parse] ([None] for its [SyntaxError]), [window.location.protocol]
    and [window.location.host]. *)
Class Host `{Numbers} := {
  trim : string -> string;
  JSON_parse : string -> option JsValue;
  location_protocol : string;
  location_host : string
}.

Section Session.

Context `{!Numbers, !Host}.

(** [!!v] *)
Definition truthy (v : JsValue) : bool :=
  match v with
  | VUndefined | VNull => false
  | VBool b => b
  | VNumber n => number_truthy n
  | VString s => negb (String.eqb s "")
  | VArray _ | VObject _ => true
  end.

(** [a || b] *)
Definition js_or (a b : JsValue) : JsValue := if truthy a then a else b.

(** [v === 'lit'] *)
Definition is_str (v : JsValue) (lit : string) : bool :=
  match v with
  | VString s => String.eqb s lit
  | _ => false
  end.

(** [v.p] for the property names the handler reads ([type], [step_type],
    [content], [ports], [project_id]): none of them is inherited or an index,
    so only an object's own entries answer; reading from [null] raises. *)
Definition get (v : JsValue) (p : string) : Completion JsValue :=
  match v with
  | VUndefined | VNull => Throw TypeError
  | VObject props => Normal (default VUndefined (props !! p))
  | _ => Normal VUndefined
  end.

(** The string a value turns into under [+]; [None] is the [TypeError] of an
    object whose own [toString] entry hides the inherited method. *)
Fixpoint js_to_string (v : JsValue) : option string :=
  match v with
  | VUndefined => Some "undefined"
  | VNull => Some "null"
  | VBool true => Some "true"
  | VBool false => Some "false"
  | VNumber n => Some (number_to_string n)
  | VString s => Some s
  | VArray items =>
      let element x :=
        match x with
        | VUndefined | VNull => Some ""
        | _ => js_to_string x
        end in
      (fix join (xs : list JsValue) : option string :=
         match xs with
         | [] => Some ""
         | [x] => element x
         | x :: rest =>
             match element x, join rest with
             | Some a, Some b => Some (a ++ "," ++ b)
             | _, _ => None
             end
         end) items
  | VObject props =>
      match props !! "toString" with
      | Some _ => None
      | None => Some "[object Object]"
      end
  end.

(** ['...' + v] *)
Definition js_concat (s : string) (v : JsValue) : Completion string :=
  match js_to_string v with
  | Some t => Normal (s ++ t)
  | None => Throw TypeError
  end.

(** [v.trim()] *)
Definition js_trim (v : JsValue) : Completion string :=
  match v with
  | VString s => Normal (trim s)
  | _ => Throw TypeError
  end.

(** [s || fallback] on strings *)
Definition str_or (s fallback : string) : string :=
  if String.eqb s "" then fallback else s.

(** ** The store ([useStore.js]) *)

Record AttachedFile := mkAttachedFile {
  filename : string;
  file_content : string
}.

(** The argument of [addMessage]. [images] is [null] or an array,
    [attachedFiles] an array or missing. *)
Record NewMessage := mkNewMessage {
  role : string;
  content : JsValue;
  images : option (list string);
  attachedFiles : option (list AttachedFile)
}.

(** [{ ...message, id: Date.now(), timestamp: new Date() }]; the two clock
    readings are taken in one task and get the same value. *)
Record ChatMessage := mkChatMessage {
  msg : NewMessage;
  msg_id : Z;
  msg_timestamp : Z
}.

(** [{ ...data, type: t }]: the step keeps the message it was made from and
    carries its own [type]. *)
Record Step := mkStep {
  step_data : JsValue;
  step_type : JsValue
}.

(** The slice of the store the session layer reads and writes; sockets are
    named by their allocation index. *)
Record Store := mkStore {
  projectPorts : JsValue;
  messages : list ChatMessage;
  streamingContent : string;
  liveAssistantContent : string;
  agentSteps : list Step;
  agentStatus : string;
  ws : option nat;
  wsConnected : bool
}.

Definition initial_store : Store := {|
  projectPorts := VObject ∅;
  messages := [];
  streamingContent := "";
  liveAssistantContent := "";
  agentSteps := [];
  agentStatus := "idle";
  ws := None;
  wsConnected := false
|}.

Definition addMessage (now : Z) (message : NewMessage) (state : Store) : Store := {|
  projectPorts := projectPorts state;
  messages := messages state ++ [mkChatMessage message now now];
  streamingContent :=
    if String.eqb (role message) "assistant" then "" else streamingContent state;
  liveAssistantContent :=
    if String.eqb (role message) "user" then "" else liveAssistantContent state;
  agentSteps := agentSteps state;
  agentStatus := agentStatus state;
  ws := ws state;
  wsConnected := wsConnected state
|}.

Definition set_streamingContent (s : string) (state : Store) : Store := {|
  projectPorts := projectPorts state;
  messages := messages state;
  streamingContent := s;
  liveAssistantContent := liveAssistantContent state;
  agentSteps := agentSteps state;
  agentStatus := agentStatus state;
  ws := ws state;
  wsConnected := wsConnected state
|}.

(** [(state.streamingContent || '') + (chunk || '')]; the sum raises where
    the chunk has no string form, and then nothing is written. *)
Definition addStreamingChunk (chunk : JsValue) (state : Store) : Completion Store :=
  match js_concat (str_or (streamingContent state) "") (js_or chunk (VString "")) with
  | Normal s => Normal (set_streamingContent s state)
  | Throw e => Throw e
  end.

Definition clearStreamingContent (state : Store) : Store :=
  set_streamingContent "" state.

(** [text ?? ''], called with strings only. *)
Definition setLiveAssistantContent (text : string) (state : Store) : Store := {|
  projectPorts := projectPorts state;
  messages := messages state;
  streamingContent := streamingContent state;
  liveAssistantContent := text;
  agentSteps := agentSteps state;
  agentStatus := agentStatus state;
  ws := ws state;
  wsConnected := wsConnected state
|}.

Definition set_agentSteps (steps : list Step) (state : Store) : Store := {|
  projectPorts := projectPorts state;
  messages := messages state;
  streamingContent := streamingContent state;
  liveAssistantContent := liveAssistantContent state;
  agentSteps := steps;
  agentStatus := agentStatus state;
  ws := ws state;
  wsConnected := wsConnected state
|}.

Definition addAgentStep (step : Step) (state : Store) : Store :=
  set_agentSteps (agentSteps state ++ [step]) state.

Definition clearAgentSteps (state : Store) : Store :=
  set_agentSteps [] state.

Definition setAgentStatus (status : string) (state : Store) : Store := {|
  projectPorts := projectPorts state;
  messages := messages state;
  streamingContent := streamingContent state;
  liveAssistantContent := liveAssistantContent state;
  agentSteps := agentSteps state;
  agentStatus := status;
  ws := ws state;
  wsConnected := wsConnected state
|}.

(** [set({ ws, wsConnected: !!ws })] *)
Definition setWs (sock : option nat) (state : Store) : Store := {|
  projectPorts := projectPorts state;
  messages := messages state;
  streamingContent := streamingContent state;
  liveAssistantContent := liveAssistantContent state;
  agentSteps := agentSteps state;
  agentStatus := agentStatus state;
  ws := sock;
  wsConnected := bool_decide (is_Some sock)
|}.

Definition updatePorts (ports : JsValue) (state : Store) : Store := {|
  projectPorts := ports;
  messages := messages state;
  streamingContent := streamingContent state;
  liveAssistantContent := liveAssistantContent state;
  agentSteps := agentSteps state;
  agentStatus := agentStatus state;
  ws := ws state;
  wsConnected := wsConnected state
|}.

(** ** Browser objects and the hook's refs ([useWebSocket.js]) *)

Inductive ReadyState := CONNECTING | OPEN | CLOSING | CLOSED.

(** What [sendMessage] and [stopAgent] hand to [ws.send]; a field is [None]
    where the payload has no such key. *)
Inductive Outbound :=
| OutTurn (message : string) (out_images : option (list string))
          (attached_files : option (list AttachedFile))
| OutStop.

(** A [WebSocket]. [opened_for] is the [projectId] of the [connect] closure
    its callbacks were made in, [closing_code] the code passed to the
    [close] call that started its closing, [close_fired] whether its close
    event was delivered. *)
Record Socket := mkSocket {
  url : string;
  readyState : ReadyState;
  closing_code : option Z;
  outbox : list Outbound;
  opened_for : string;
  close_fired : bool
}.

Inductive TimerCallback :=
| HeartbeatExpired
| Reconnect (projectId : string).

Record Timer := mkTimer {
  callback : TimerCallback;
  delay : Z
}.

Inductive LogLine :=
| WarnNoHeartbeat
| LogConnectedToProject (project_id : JsValue)
| LogPortsUpdate (ports : JsValue)
| LogUnknownType (type : JsValue)
| LogConnecting (wsUrl : string)
| LogWsConnected
| LogWsDisconnected (code : Z)
| ErrorParse (e : JsError)
| ErrorWs.

Record World := mkWorld {
  store : Store;
  wsRef : option nat;
  reconnectTimeout : option nat;
  isConnectingRef : bool;
  heartbeatTimer : option nat;
  sockets : list Socket;
  timers : gmap nat Timer;
  next_timer : nat;
  console : list LogLine
}.

(** Timer handles count from 1, as the browsers' do. *)
Definition initial_world : World := {|
  store := initial_store;
  wsRef := None;
  reconnectTimeout := None;
  isConnectingRef := false;
  heartbeatTimer := None;
  sockets := [];
  timers := ∅;
  next_timer := 1;
  console := []
|}.

Definition with_store (f : Store -> Store) (w : World) : World :=
  mkWorld (f (store w)) (wsRef w) (reconnectTimeout w) (isConnectingRef w)
          (heartbeatTimer w) (sockets w) (timers w) (next_timer w) (console w).

Definition with_wsRef (r : option nat) (w : World) : World :=
  mkWorld (store w) r (reconnectTimeout w) (isConnectingRef w)
          (heartbeatTimer w) (sockets w) (timers w) (next_timer w) (console w).

Definition with_reconnectTimeout (r : option nat) (w : World) : World :=
  mkWorld (store w) (wsRef w) r (isConnectingRef w)
          (heartbeatTimer w) (sockets w) (timers w) (next_timer w) (console w).

Definition with_isConnectingRef (b : bool) (w : World) : World :=
  mkWorld (store w) (wsRef w) (reconnectTimeout w) b
          (heartbeatTimer w) (sockets w) (timers w) (next_timer w) (console w).

Definition with_heartbeatTimer (r : option nat) (w : World) : World :=
  mkWorld (store w) (wsRef w) (reconnectTimeout w) (isConnectingRef w)
          r (sockets w) (timers w) (next_timer w) (console w).

Definition with_sockets (f : list Socket -> list Socket) (w : World) : World :=
  mkWorld (store w) (wsRef w) (reconnectTimeout w) (isConnectingRef w)
          (heartbeatTimer w) (f (sockets w)) (timers w) (next_timer w) (console w).

Definition with_timers (f : gmap nat Timer -> gmap nat Timer) (w : World) : World :=
  mkWorld (store w) (wsRef w) (reconnectTimeout w) (isConnectingRef w)
          (heartbeatTimer w) (sockets w) (f (timers w)) (next_timer w) (console w).

Definition with_next_timer (n : nat) (w : World) : World :=
  mkWorld (store w) (wsRef w) (reconnectTimeout w) (isConnectingRef w)
          (heartbeatTimer w) (sockets w) (timers w) n (console w).

(** [console.log], [console.warn], [console.error] *)
Definition log (l : LogLine) (w : World) : World :=
  mkWorld (store w) (wsRef w) (reconnectTimeout w) (isConnectingRef w)
          (heartbeatTimer w) (sockets w) (timers w) (next_timer w) (console w ++ [l]).

(** [setTimeout(cb, delay)]: a fresh handle, returned. *)
Definition setTimeout (cb : TimerCallback) (ms : Z) (w : World) : nat * World :=
  (next_timer w,
   with_next_timer (S (next_timer w))
     (with_timers (insert (next_timer w) (mkTimer cb ms)) w)).

Definition clearTimeout (handle : nat) (w : World) : World :=
  with_timers (delete handle) w.

(** [if (ref.current)] on a ref that holds [null] or a timer handle. *)
Definition handle_set (r : option nat) : bool :=
  match r with
  | Some (S _) => true
  | _ => false
  end.

Definition set_readyState (st : ReadyState) (sock : Socket) : Socket :=
  mkSocket (url sock) st (closing_code sock) (outbox sock) (opened_for sock)
           (close_fired sock).

(** [sock.close(code, reason)]: starts the closing of a socket that is
    connecting or open, does nothing to one already closing or closed. *)
Definition close_socket (code : option Z) (sock : Socket) : Socket :=
  match readyState sock with
  | CONNECTING | OPEN =>
      mkSocket (url sock) CLOSING code (outbox sock) (opened_for sock)
               (close_fired sock)
  | CLOSING | CLOSED => sock
  end.

Definition ws_close (s : nat) (code : option Z) (w : World) : World :=
  with_sockets (alter (close_socket code) s) w.

(** [new WebSocket(wsUrl)], for a URL the constructor accepts. *)
Definition new_WebSocket (wsUrl projectId : string) (w : World) : nat * World :=
  (length (sockets w),
   with_sockets (fun l => (l ++ [mkSocket wsUrl CONNECTING None [] projectId false])%list) w).

(** [wsRef.current.readyState], when [wsRef.current] is set. *)
Definition ws_readyState (w : World) : option ReadyState :=
  s ← wsRef w; sock ← sockets w !! s; Some (readyState sock).

Definition ReadyState_eqb (a b : ReadyState) : bool :=
  match a, b with
  | CONNECTING, CONNECTING | OPEN, OPEN | CLOSING, CLOSING | CLOSED, CLOSED => true
  | _, _ => false
  end.

(** [wsRef.current && wsRef.current.readyState === st] *)
Definition ws_is (st : ReadyState) (w : World) : bool :=
  match ws_readyState w with
  | Some st' => ReadyState_eqb st' st
  | None => false
  end.

Definition HEARTBEAT_TIMEOUT_MS : Z := 45000.

Definition resetHeartbeatTimer (w : World) : World :=
  let w1 :=
    if handle_set (heartbeatTimer w)
    then clearTimeout (default 0%nat (heartbeatTimer w)) w
    else w in
  let '(handle, w2) := setTimeout HeartbeatExpired HEARTBEAT_TIMEOUT_MS w1 in
  with_heartbeatTimer (Some handle) w2.

(** The watchdog's timeout callback. *)
Definition heartbeat_expired (w : World) : World :=
  let w1 := log WarnNoHeartbeat w in
  if ws_is OPEN w1
  then ws_close (default 0%nat (wsRef w1)) (Some 4000) w1
  else w1.

(** ** Code that can raise *)

Definition M (A : Type) : Type := World -> World * Completion A.

Definition ret {A} (a : A) : M A := fun w => (w, Normal a).

Definition bind {A B} (m : M A) (k : A -> M B) : M B := fun w =>
  match m w with
  | (w', Normal a) => k a w'
  | (w', Throw e) => (w', Throw e)
  end.

Notation "x <- c1 ;; c2" := (bind c1 (fun x => c2))
  (at level 20, c1 at level 99, c2 at level 200, only parsing).
Notation "c1 ;; c2" := (bind c1 (fun _ => c2))
  (at level 100, c2 at level 200, only parsing, right associativity).

Definition lift {A} (c : Completion A) : M A := fun w => (w, c).

Definition modify (f : World -> World) : M unit := fun w => (f w, Normal tt).

Definition update_store (f : Store -> Store) : M unit := modify (with_store f).

Definition update_store_try (f : Store -> Completion Store) : M unit := fun w =>
  match f (store w) with
  | Normal st => (with_store (fun _ => st) w, Normal tt)
  | Throw e => (w, Throw e)
  end.

(** [try { body } catch (e) { handler(e) }] *)
Definition try_catch (body : M unit) (handler : JsError -> M unit) : M unit := fun w =>
  match body w with
  | (w', Normal tt) => (w', Normal tt)
  | (w', Throw e) => handler e w'
  end.

(** ** The message handler *)

(** The store always carries its actions, so the guard that opens the
    source function never returns; the body starts at the watchdog reset. *)
Definition handleMessage (now : Z) (data : JsValue) : M unit :=
  modify resetHeartbeatTimer ;;
  type <- lift (get data "type") ;;
  if is_str type "heartbeat" then ret tt
  else if is_str type "agent_stream_chunk" then
    c <- lift (get data "content") ;;
    update_store_try (addStreamingChunk (js_or c (VString ""))) ;;
    update_store (setAgentStatus "working")
  else if is_str type "connected" then
    project_id <- lift (get data "project_id") ;;
    modify (log (LogConnectedToProject project_id)) ;;
    ports <- lift (get data "ports") ;;
    update_store (updatePorts (js_or ports (VObject ∅)))
  else if is_str type "agent_step" then
    step_type <- lift (get data "step_type") ;;
    update_store (addAgentStep (mkStep data (js_or step_type type))) ;;
    let stepType := js_or step_type type in
    c <- lift (get data "content") ;;
    content <- lift (js_trim (js_or c (VString ""))) ;;
    if is_str stepType "thinking" then
      update_store (setAgentStatus "thinking") ;;
      update_store (setLiveAssistantContent (str_or content "Думаю..."))
    else if is_str stepType "llm_text" then
      update_store (setAgentStatus "working") ;;
      update_store (setLiveAssistantContent (str_or content ""))
    else if is_str stepType "tool_call" || is_str stepType "tool_result" then
      update_store (setAgentStatus "working")
    else ret tt
  else if is_str type "agent_response" then
    c <- lift (get data "content") ;;
    update_store (addMessage now (mkNewMessage "assistant" c None None)) ;;
    update_store clearStreamingContent ;;
    update_store (setLiveAssistantContent "") ;;
    update_store (setAgentStatus "done")
  else if is_str type "agent_stopped" then
    c <- lift (get data "content") ;;
    update_store (addMessage now
      (mkNewMessage "assistant" (js_or c (VString "⏹️ Агент остановлен")) None None)) ;;
    update_store clearStreamingContent ;;
    update_store (setLiveAssistantContent "") ;;
    update_store (setAgentStatus "idle")
  else if is_str type "ports_update" then
    ports <- lift (get data "ports") ;;
    modify (log (LogPortsUpdate (js_or ports (VObject ∅)))) ;;
    update_store (updatePorts (js_or ports (VObject ∅)))
  else if is_str type "error" then
    c <- lift (get data "content") ;;
    update_store (addMessage now (mkNewMessage "error" c None None)) ;;
    update_store clearStreamingContent ;;
    update_store (setLiveAssistantContent "") ;;
    update_store (setAgentStatus "error")
  else if is_str type "user_message" then ret tt
  else modify (log (LogUnknownType type)).

(** ** The connection manager *)

(** [if (!projectId) return] *)
Definition projectId_set (projectId : option string) : bool :=
  match projectId with
  | Some p => negb (String.eqb p "")
  | None => false
  end.

Definition connect (projectId : option string) (w : World) : World :=
  if negb (projectId_set projectId) then w
  else if isConnectingRef w || ws_is CONNECTING w then w
  else if ws_is OPEN w then w
  else
    let w1 := with_isConnectingRef true w in
    let w2 :=
      match wsRef w1 with
      | Some s => with_wsRef None (ws_close s None w1)
      | None => w1
      end in
    let w3 :=
      if handle_set (reconnectTimeout w2)
      then with_reconnectTimeout None
             (clearTimeout (default 0%nat (reconnectTimeout w2)) w2)
      else w2 in
    let protocol := if String.eqb location_protocol "https:" then "wss:" else "ws:" in
    let wsUrl := protocol ++ "//" ++ location_host ++ "/ws/chat/" ++ default "" projectId in
    let w4 := log (LogConnecting wsUrl) w3 in
    let '(sock, w5) := new_WebSocket wsUrl (default "" projectId) w4 in
    with_wsRef (Some sock) w5.

(** [ws.onopen] of socket [s] *)
Definition onopen (s : nat) (w : World) : World :=
  let w1 := log LogWsConnected w in
  let w2 := with_isConnectingRef false w1 in
  let w3 := resetHeartbeatTimer w2 in
  with_store (setWs (Some s)) w3.

(** [ws.onmessage] *)
Definition onmessage (now : Z) (event_data : string) : M unit :=
  try_catch
    (match JSON_parse event_data with
     | Some data => handleMessage now data
     | None => lift (Throw SyntaxError)
     end)
    (fun e => modify (log (ErrorParse e))).

(** [ws.onclose] of socket [s], made by [connect] for [projectId] *)
Definition onclose (projectId : string) (s : nat) (code : Z) (w : World) : World :=
  let w1 := log (LogWsDisconnected code) w in
  let w2 := with_isConnectingRef false w1 in
  let w3 :=
    if handle_set (heartbeatTimer w2)
    then clearTimeout (default 0%nat (heartbeatTimer w2)) w2
    else w2 in
  let w4 := with_store (setWs None) w3 in
  if negb (code =? 1000) && negb (handle_set (reconnectTimeout w4))
     && bool_decide (wsRef w4 = Some s)
  then
    let ms := if code =? 4000 then 1000 else 5000 in
    let '(handle, w5) := setTimeout (Reconnect projectId) ms w4 in
    with_reconnectTimeout (Some handle) w5
  else w4.

(** [ws.onerror] *)
Definition onerror (w : World) : World :=
  with_isConnectingRef false (log ErrorWs w).

(** The reconnect timeout callback. *)
Definition reconnect_fired (projectId : string) (w : World) : World :=
  connect (Some projectId) (with_reconnectTimeout None w).

(** The cleanup function of the hook's effect. *)
Definition cleanup (w : World) : World :=
  let w1 :=
    if handle_set (heartbeatTimer w)
    then with_heartbeatTimer None (clearTimeout (default 0%nat (heartbeatTimer w)) w)
    else w in
  let w2 :=
    if handle_set (reconnectTimeout w1)
    then with_reconnectTimeout None
           (clearTimeout (default 0%nat (reconnectTimeout w1)) w1)
    else w1 in
  let w3 :=
    match wsRef w2 with
    | Some s => with_wsRef None (ws_close s (Some 1000) w2)
    | None => w2
    end in
  with_isConnectingRef false w3.

(** ** Outbound actions of the store *)

Definition enqueue (payload : Outbound) (sock : Socket) : Socket :=
  mkSocket (url sock) (readyState sock) (closing_code sock)
           (outbox sock ++ [payload]) (opened_for sock) (close_fired sock).

(** [ws.send(frame)]: raises on a socket still connecting, transmits on an
    open one, discards on one closing or closed. *)
Definition ws_send (s : nat) (payload : Outbound) : M unit := fun w =>
  match readyState <$> sockets w !! s with
  | Some CONNECTING => (w, Throw InvalidStateError)
  | Some OPEN => (with_sockets (alter (enqueue payload) s) w, Normal tt)
  | _ => (w, Normal tt)
  end.

(** [x && x.length > 0 ? x : absent] *)
Definition nonempty {A} (x : option (list A)) : option (list A) :=
  match x with
  | Some (_ :: _) => x
  | _ => None
  end.

Definition sendMessage (now : Z) (message : string) (imgs : option (list string))
    (files : option (list AttachedFile)) : M unit := fun w =>
  match ws (store w), wsConnected (store w) with
  | Some s, true =>
      (ws_send s
         (OutTurn message (nonempty imgs)
            (fmap (M := list) (fun f => mkAttachedFile (filename f) (file_content f))
               <$> nonempty files)) ;;
       update_store (addMessage now (mkNewMessage "user" (VString message) imgs files)) ;;
       update_store (fun st =>
         setAgentStatus "thinking" (set_agentSteps [] (set_streamingContent "" st)))) w
  | _, _ => (w, Normal tt)
  end.

Definition stopAgent : M unit := fun w =>
  match ws (store w), wsConnected (store w) with
  | Some s, true =>
      (ws_send s OutStop ;; update_store (setAgentStatus "idle")) w
  | _, _ => (w, Normal tt)
  end.

(** ** The event loop

    One event is one task of the page: the effect running or being cleaned
    up, a socket event, a timeout coming due, a call from the chat panel.
    The browser delivers [open] to a connecting socket, [message] to an open
    one, [close] once per socket; an event it would not deliver is skipped. *)

Inductive Event :=
| EvMount (projectId : option string)
| EvCleanup
| EvOpen (s : nat)
| EvMessage (s : nat) (now : Z) (event_data : string)
| EvError (s : nat)
| EvClose (s : nat) (code : Z)
| EvTimeout (handle : nat)
| EvSendMessage (now : Z) (message : string) (imgs : option (list string))
                (files : option (list AttachedFile))
| EvStopAgent.

Definition mark_closed (sock : Socket) : Socket :=
  mkSocket (url sock) CLOSED (closing_code sock) (outbox sock) (opened_for sock) true.

Definition step (ev : Event) (w : World) : World :=
  match ev with
  | EvMount projectId => connect projectId w
  | EvCleanup => cleanup w
  | EvOpen s =>
      match sockets w !! s with
      | Some sock =>
          match readyState sock with
          | CONNECTING => onopen s (with_sockets (alter (set_readyState OPEN) s) w)
          | _ => w
          end
      | None => w
      end
  | EvMessage s now event_data =>
      match sockets w !! s with
      | Some sock =>
          match readyState sock with
          | OPEN => fst (onmessage now event_data w)
          | _ => w
          end
      | None => w
      end
  | EvError s =>
      match sockets w !! s with
      | Some sock =>
          if close_fired sock then w
          else onerror (with_sockets (alter (set_readyState CLOSED) s) w)
      | None => w
      end
  | EvClose s code =>
      match sockets w !! s with
      | Some sock =>
          if close_fired sock then w
          else onclose (opened_for sock) s code (with_sockets (alter mark_closed s) w)
      | None => w
      end
  | EvTimeout handle =>
      match timers w !! handle with
      | Some t =>
          let w1 := with_timers (delete handle) w in
          match callback t with
          | HeartbeatExpired => heartbeat_expired w1
          | Reconnect projectId => reconnect_fired projectId w1
          end
      | None => w
      end
  | EvSendMessage now message imgs files => fst (sendMessage now message imgs files w)
  | EvStopAgent => fst (stopAgent w)
  end.

Definition run (evs : list Event) (w : World) : World :=
  foldl (fun w ev => step ev w) w evs.

(** ** The step filters of the two panels *)

Definition ACTIVITY_TYPES : gset string :=
  {[ "thinking"; "tool_call"; "tool_result"; "error" ]}.

Definition DIALOG_TYPES : gset string := {[ "llm_text"; "response" ]}.

(** [set.has(v)] for a set of strings *)
Definition has (set : gset string) (v : JsValue) : bool :=
  match v with
  | VString s => bool_decide (s ∈ set)
  | _ => false
  end.

Definition activitySteps (steps : list Step) : list Step :=
  List.filter (fun s => has ACTIVITY_TYPES (step_type s)) steps.

Definition dialogSteps (steps : list Step) : list Step :=
  List.filter (fun s => has DIALOG_TYPES (step_type s)) steps.

(** ** The summary box of the ProcessDialog panel ([Editor.jsx]) *)

Definition ACTION_TYPES : gset string := {[ "thinking"; "tool_call"; "tool_result" ]}.

Definition actionSteps (steps : list Step) : list Step :=
  List.filter (fun s => has ACTION_TYPES (step_type s)) steps.

(** [actionSteps[actionSteps.length - 1]], [undefined] on an empty list. *)
Definition lastActionStep (steps : list Step) : option Step := last (actionSteps steps).

(** ** The status badges *)

(** ProcessDialog and AgentActivity:
    [agentStatus !== 'idle' && agentStatus !== 'done'] *)
Definition isWorking (status : string) : bool :=
  negb (String.eqb status "idle") && negb (String.eqb status "done").

(** The badge in the header of the two panels, when it is shown. *)
Definition status_badge (status : string) : option string :=
  if isWorking status
  then Some (if String.eqb status "thinking" then "Думает" else "Работает")
  else None.

(** Chat: [agentStatus === 'thinking' || agentStatus === 'working'] *)
Definition Chat_isWorking (status : string) : bool :=
  String.eqb status "thinking" || String.eqb status "working".

(** The typing dots of the chat panel:
    [isWorking && !streamingContent && !liveAssistantContent]. *)
Definition typing_indicator (st : Store) : option string :=
  if Chat_isWorking (agentStatus st) && String.eqb (streamingContent st) ""
     && String.eqb (liveAssistantContent st) ""
  then Some (if String.eqb (agentStatus st) "thinking" then "Думает..." else "Выполняет...")
  else None.

(** ** The composer of the chat panel ([Chat.jsx]) *)

(** A picked or pasted image: [{ base64, file, preview }], of which
    [handleSend] reads the first. *)
Record Image := mkImage {
  base64 : string;
  preview : string
}.

(** Pasted text kept as a file: [{ id, filename, content }]. *)
Record PastedFile := mkPastedFile {
  pasted_id : string;
  pasted_filename : string;
  pasted_content : string
}.

(** The panel's three pieces of state: [input], [images], [attachedFiles]. *)
Record Composer := mkComposer {
  input : string;
  composer_images : list Image;
  composer_files : list PastedFile
}.

(** [x.length > 0 ? x : null] *)
Definition or_null {A} (x : list A) : option (list A) :=
  match x with
  | [] => None
  | _ => Some x
  end.

(** [handleSend]; the panel has rendered since the store last changed, so
    the [wsConnected] it closed over is the store's.  The result is the
    composer after the call; an exception leaves it unset. *)
Definition handleSend (now : Z) (c : Composer) : M Composer := fun w =>
  let text := trim (input c) in
  let hasAttachments :=
    bool_decide (composer_images c <> []) || bool_decide (composer_files c <> []) in
  if (String.eqb text "" && negb hasAttachments) || negb (wsConnected (store w))
  then (w, Normal c)
  else
    let imageData := base64 <$> composer_images c in
    let filesToSend :=
      if bool_decide (composer_files c <> [])
      then Some ((fun f => mkAttachedFile (pasted_filename f) (pasted_content f))
                   <$> composer_files c)
      else None in
    (sendMessage now
       (str_or text
          (if bool_decide (composer_images c <> [])
           then "Проанализируй изображение и создай код"
           else "Обработай прикреплённые файлы"))
       (or_null imageData) filesToSend ;;
     ret (mkComposer "" [] [])) w.

(** ** Vocabulary of the properties *)

(** [data.p], [undefined] where the read would raise. *)
Definition field (data : JsValue) (p : string) : JsValue :=
  match get data p with
  | Normal v => v
  | Throw _ => VUndefined
  end.

(** What [ws.onmessage] does with a frame once it parsed to [data]. *)
Definition deliver (now : Z) (data : JsValue) (w : World) : World :=
  fst (try_catch (handleMessage now data) (fun e => modify (log (ErrorParse e))) w).

(** A sequence of decoded messages, each with the clock reading at its
    arrival, delivered in order. *)
Definition deliver_all (msgs : list (Z * JsValue)) (w : World) : World :=
  foldl (fun w m => deliver m.1 m.2 w) w msgs.

(** The status column of the table in section 4.3 of the specification,
    written from the table: the status a message dictates, if any. *)
Definition table_status (data : JsValue) : option string :=
  let type := field data "type" in
  let kind := field data "step_type" in
  if is_str type "agent_step" then
    if is_str kind "thinking" then Some "thinking"
    else if is_str kind "llm_text" || is_str kind "tool_call" || is_str kind "tool_result"
    then Some "working"
    else None
  else if is_str type "agent_stream_chunk" then Some "working"
  else if is_str type "agent_response" then Some "done"
  else if is_str type "agent_stopped" then Some "idle"
  else if is_str type "error" then Some "error"
  else None.

(** The status the table gives a history: that of its last status-affecting
    message, [previous] when it has none. *)
Definition status_after (previous : string) (history : list JsValue) : string :=
  default previous (last (omap table_status history)).

Definition status_of_history (history : list JsValue) : string :=
  status_after "idle" history.

Definition is_string (v : JsValue) : bool :=
  match v with
  | VString _ => true
  | _ => false
  end.

(** The content is one the handler can take: on an [agent_step] a string or
    a falsy value (missing, [null], [false], zero), on an
    [agent_stream_chunk] a value that has a string form; on the other
    messages any value. *)
Definition content_fits (data : JsValue) : bool :=
  let type := field data "type" in
  let c := field data "content" in
  if is_str type "agent_step" then negb (truthy c) || is_string c
  else if is_str type "agent_stream_chunk" then bool_decide (is_Some (js_to_string c))
  else true.

(** The text a stream chunk carries: its [content] when that is a string,
    nothing when it is missing or otherwise falsy, and for any other value
    the string [+] makes of it (nothing where it has none). *)
Definition chunk_text (data : JsValue) : string :=
  match field data "content" with
  | VString s => s
  | v => if truthy v then default "" (js_to_string v) else ""
  end.

Definition concat_text (texts : list string) : string :=
  foldr String.append "" texts.

Definition is_chunk (data : JsValue) : bool :=
  is_str (field data "type") "agent_stream_chunk".

(** The chat message a terminal message stands for, after the table of
    section 4.3. *)
Definition terminal_message (data : JsValue) : option NewMessage :=
  let type := field data "type" in
  let c := field data "content" in
  if is_str type "agent_response" then Some (mkNewMessage "assistant" c None None)
  else if is_str type "agent_stopped" then
    Some (mkNewMessage "assistant"
            (if truthy c then c else VString "⏹️ Агент остановлен") None None)
  else if is_str type "error" then Some (mkNewMessage "error" c None None)
  else None.

(** The step kinds and message types the protocol knows. *)
Definition STEP_KINDS : gset string :=
  {[ "thinking"; "llm_text"; "tool_call"; "tool_result" ]}.

Definition MESSAGE_TYPES : gset string :=
  {[ "connected"; "heartbeat"; "agent_step"; "agent_stream_chunk"; "agent_response";
     "agent_stopped"; "ports_update"; "error"; "user_message" ]}.

(** [ws && wsConnected] *)
Definition connection_open (st : Store) : bool :=
  match ws st, wsConnected st with
  | Some _, true => true
  | _, _ => false
  end.

Definition is_reconnect (t : Timer) : bool :=
  match callback t with
  | Reconnect _ => true
  | HeartbeatExpired => false
  end.

(** The reconnect timeouts that are pending: not yet due and not cleared. *)
Definition reconnect_timers (w : World) : gmap nat Timer :=
  filter (fun ht => is_reconnect ht.2 = true) (timers w).

Definition reconnect_pending (w : World) : bool :=
  bool_decide (reconnect_timers w <> ∅).

(** The watchdog timeouts that are pending. *)
Definition heartbeat_timers (w : World) : gmap nat Timer :=
  filter (fun ht => is_reconnect ht.2 = false) (timers w).

(** The delay of the reconnect that was scheduled between [w] and [w']:
    handles are handed out in order, so a timeout made since [w] has the
    handle that was next in [w]. *)
Definition scheduled_reconnect (w w' : World) : option Z :=
  match timers w' !! next_timer w with
  | Some t => if is_reconnect t then Some (delay t) else None
  | None => None
  end.

Definition live (sock : Socket) : bool :=
  match readyState sock with
  | CONNECTING | OPEN => true
  | CLOSING | CLOSED => false
  end.

(** The sockets that are connecting or open. *)
Definition live_sockets (w : World) : list Socket := List.filter live (sockets w).

(** [w'] differs from [w] in the console and in the store's data only. *)
Definition same_hook (w w' : World) : Prop :=
  wsRef w' = wsRef w /\ reconnectTimeout w' = reconnectTimeout w /\
  isConnectingRef w' = isConnectingRef w /\ heartbeatTimer w' = heartbeatTimer w /\
  sockets w' = sockets w /\ timers w' = timers w /\ next_timer w' = next_timer w /\
  ws (store w') = ws (store w) /\ wsConnected (store w') = wsConnected (store w).

(** A computation that touches the console and the store's data only. *)
Definition keeps {A} (m : M A) : Prop := forall w, same_hook w (m w).1.

Definition reachable (w : World) : Prop := exists evs, w = run evs initial_world.

(** ** What the handler does to each field of the store, after its source *)

(** The step an [agent_step] message is recorded as. *)
Definition recorded_step (data : JsValue) : option Step :=
  if is_str (field data "type") "agent_step"
  then Some (mkStep data (js_or (field data "step_type") (field data "type")))
  else None.

(** The ports a [connected] or [ports_update] message publishes. *)
Definition published_ports (data : JsValue) : option JsValue :=
  if is_str (field data "type") "connected" || is_str (field data "type") "ports_update"
  then Some (js_or (field data "ports") (VObject ∅))
  else None.

(** The live text an [agent_step] of kind [kind] with content [text] shows. *)
Definition live_text (kind : JsValue) (text : string) (previous : string) : string :=
  if is_str kind "thinking" then str_or (trim text) "Думаю..."
  else if is_str kind "llm_text" then trim text
  else previous.

(** The text of a message's content: the content when it is a string,
    nothing otherwise. *)
Definition content_text (data : JsValue) : string :=
  match field data "content" with
  | VString s => s
  | _ => ""
  end.

(** The live text after a message, as the handler writes it. *)
Definition live_after (data : JsValue) (previous : string) : string :=
  if is_str (field data "type") "agent_step" then
    live_text (js_or (field data "step_type") (field data "type")) (content_text data) previous
  else if bool_decide (is_Some (terminal_message data)) then ""
  else previous.

(** The streamed text after a message, as the handler writes it. *)
Definition streaming_after (data : JsValue) (previous : string) : string :=
  if is_chunk data then previous ++ chunk_text data
  else if bool_decide (is_Some (terminal_message data)) then ""
  else previous.

(** The values [agentStatus] is documented to range over. *)
Definition STATUSES : gset string := {[ "idle"; "thinking"; "working"; "done"; "error" ]}.

(** The chat message a decoded message adds to the history, stamped with
    its arrival time. *)
Definition history_entry (m : Z * JsValue) : option ChatMessage :=
  (fun nm => mkChatMessage nm m.1 m.1) <$> terminal_message m.2.

(** [`${protocol}//${window.location.host}/ws/chat/${projectId}`] *)
Definition wsUrl_of (projectId : string) : string :=
  (if String.eqb location_protocol "https:" then "wss:" else "ws:")
    ++ "//" ++ location_host ++ "/ws/chat/" ++ projectId.

Definition is_mount (ev : Event) : bool :=
  match ev with
  | EvMount _ => true
  | _ => false
  end.

(** Two lists of sockets that agree, place by place, on the project and
    the URL of each socket. *)
Definition same_projects (l l' : list Socket) : Prop :=
  Forall2 (fun a b => opened_for b = opened_for a /\ url b = url a) l l'.

(** ** Invariants of the event loop *)

(** What a change to one socket must respect: a socket that is closing or
    closed stays so, one whose close event fired is closed, none goes back
    to connecting. *)
Definition respects (f : Socket -> Socket) (sock : Socket) : Prop :=
  (live sock = false -> live (f sock) = false) /\
  (close_fired (f sock) = true -> readyState (f sock) = CLOSED) /\
  (readyState sock <> CONNECTING -> readyState (f sock) <> CONNECTING) /\
  (close_fired sock = true -> close_fired (f sock) = true).

(** Pending timeouts and the two refs that hold their handles. *)
Record TimerInv (w : World) : Prop := {
  inv_next : (1 <= next_timer w)%nat;
  inv_timers_lt : forall h t, timers w !! h = Some t -> (1 <= h < next_timer w)%nat;
  inv_hb_lt : forall h, heartbeatTimer w = Some h -> (1 <= h < next_timer w)%nat;
  inv_hb_only : forall h t,
    timers w !! h = Some t -> is_reconnect t = false -> heartbeatTimer w = Some h;
  inv_hb_kind : forall h t,
    heartbeatTimer w = Some h -> timers w !! h = Some t -> is_reconnect t = false;
  inv_rc_only : forall h t,
    timers w !! h = Some t -> is_reconnect t = true -> reconnectTimeout w = Some h;
  inv_rc_pending : forall h,
    reconnectTimeout w = Some h -> exists t, timers w !! h = Some t /\ is_reconnect t = true
}.

(** Sockets, the ref to the current one, and the handle in the store. *)
Record SocketInv (w : World) : Prop := {
  inv_ws_alloc : forall s, wsRef w = Some s -> is_Some (sockets w !! s);
  inv_others : forall s sock,
    sockets w !! s = Some sock -> wsRef w <> Some s -> live sock = false;
  inv_fired : forall s sock,
    sockets w !! s = Some sock -> close_fired sock = true -> readyState sock = CLOSED;
  inv_store_ws : forall s,
    ws (store w) = Some s ->
    exists sock, sockets w !! s = Some sock /\ readyState sock <> CONNECTING;
  inv_rc_closed : forall h,
    reconnectTimeout w = Some h ->
    exists s sock, wsRef w = Some s /\ sockets w !! s = Some sock /\ close_fired sock = true
}.

(** The hook after its cleanup: no current socket, nothing pending, no
    socket connecting or open. *)
Record Unmounted (w : World) : Prop := {
  um_wsRef : wsRef w = None;
  um_timers : timers w = ∅;
  um_live : forall s sock, sockets w !! s = Some sock -> live sock = false
}.

(** Sockets and reconnects, and the project they were made for. *)
Record ProjectInv (w : World) : Prop := {
  inv_socket_project : forall s sock,
    sockets w !! s = Some sock ->
    opened_for sock <> "" /\ url sock = wsUrl_of (opened_for sock);
  inv_rc_project : forall h t pid,
    timers w !! h = Some t -> callback t = Reconnect pid ->
    exists s sock, wsRef w = Some s /\ sockets w !! s = Some sock /\ opened_for sock = pid;
  inv_rc_idle : forall h, reconnectTimeout w = Some h -> isConnectingRef w = false
}.

End Session.

(** ** An engine to run examples on

    Numbers are the integers, [trim] strips blanks, tabs and line breaks,
    and [JSON.parse] is read off a table of the frames the examples use. *)

Definition integers : Numbers := {|
  number := Z;
  number_truthy := fun z => negb (z =? 0);
  number_to_string := pretty
|}.

Definition is_blank (c : ascii) : bool :=
  let n := nat_of_ascii c in
  ((9 <=? n) && (n <=? 13) || (n =? 32))%nat.

Fixpoint trim_start (s : string) : string :=
  match s with
  | String c rest => if is_blank c then trim_start rest else s
  | EmptyString => s
  end.

Definition trim_blanks (s : string) : string :=
  String.rev (trim_start (String.rev (trim_start s))).

Definition parse_table : list (string * @JsValue integers) :=
  [ ("null", VNull); ("42", @VNumber integers 42); ("[]", VArray []); ("{}", VObject ∅) ].

Definition example_host : @Host integers := {|
  trim := trim_blanks;
  JSON_parse := fun frame => snd <$> List.find (fun e => String.eqb e.1 frame) parse_table;
  location_protocol := "https:";
  location_host := "agent.example"
|}.

Section ExampleData.

#[local] Existing Instance integers.
#[local] Existing Instance example_host.

(** [{ k1: v1, ... }] *)
Definition object (entries : list (string * JsValue)) : JsValue :=
  VObject (list_to_map entries).

Definition agent_step (step_type : string) (text : string) : JsValue :=
  object [("type", VString "agent_step"); ("step_type", VString step_type);
          ("content", VString text)].

Definition agent_stream_chunk (text : string) : JsValue :=
  object [("type", VString "agent_stream_chunk"); ("content", VString text)].

Definition agent_response (text : string) : JsValue :=
  object [("type", VString "agent_response"); ("content", VString text)].

(** [agent_stopped] with no content. *)
Definition agent_stopped : JsValue := object [("type", VString "agent_stopped")].

(** A [thinking] step whose content is [true], not text. *)
Definition ill_typed_step : JsValue :=
  object [("type", VString "agent_step"); ("step_type", VString "thinking");
          ("content", VBool true)].

(** The hook mounted for project [p1] and its socket open. *)
Definition open_world : World := run [EvMount (Some "p1"); EvOpen 0] initial_world.

(** A [heartbeat]. *)
Definition heartbeat : JsValue := object [("type", VString "heartbeat")].

(** An [agent_step] that came without a [step_type]. *)
Definition kindless_step : JsValue :=
  object [("type", VString "agent_step"); ("content", VString "x")].

(** The hook mounted for project [p1], its socket still connecting. *)
Definition connecting_world : World := run [EvMount (Some "p1")] initial_world.

(** The socket of [open_world] lost, with close code 1006. *)
Definition closed_world : World :=
  run [EvMount (Some "p1"); EvOpen 0; EvClose 0 1006] initial_world.

(** The effect cleaned up and run again, the second socket open, and the
    close event of the first still to come. *)
Definition remounted_world : World :=
  run [EvMount (Some "p1"); EvOpen 0; EvCleanup; EvMount (Some "p1"); EvOpen 1] initial_world.

(** An [agent_step] that came with the empty string as its [step_type]. *)
Definition blank_kind_step : JsValue :=
  object [("type", VString "agent_step"); ("step_type", VString ""); ("content", VString "x")].



End ExampleData.

(** * Properties *)

Section Properties.

Local Open Scope list_scope.

Context `{!Numbers, !Host}.

#[local] Arguments js_or : simpl never.
#[local] Arguments is_str : simpl nomatch.

(** ** Values and strings *)

Lemma append_empty_r (s : string) : (s ++ "")%string = s.
Proof.
  induction s as [|c s IH]; [done|].
  change (String c (s ++ "")%string = String c s). by rewrite IH.
Qed.

Lemma append_assoc (a b c : string) : ((a ++ b) ++ c)%string = (a ++ (b ++ c))%string.
Proof.
  induction a as [|x a IH]; [done|].
  change (String x ((a ++ b) ++ c)%string = String x (a ++ (b ++ c))%string).
  by rewrite IH.
Qed.

Lemma str_or_empty (s : string) : str_or s "" = s.
Proof. unfold str_or. by destruct (String.eqb_spec s ""). Qed.

Lemma is_str_true v lit : is_str v lit = true -> v = VString lit.
Proof.
  destruct v; simpl; try discriminate.
  intros E. apply String.eqb_eq in E. by subst.
Qed.

Lemma is_str_VString s lit : is_str (VString s) lit = bool_decide (s = lit).
Proof. simpl. case_bool_decide; [by apply String.eqb_eq | by apply String.eqb_neq]. Qed.

(** A fallback that is not the literal tested for does not change the test. *)
Lemma is_str_js_or v fallback lit :
  lit <> "" -> lit <> fallback ->
  is_str (js_or v (VString fallback)) lit = is_str v lit.
Proof.
  intros Hne Hfb. unfold js_or. destruct (truthy v) eqn:Ht; [done|].
  rewrite is_str_VString, bool_decide_false by congruence.
  destruct v; simpl in *; try done.
  apply negb_false_iff, String.eqb_eq in Ht. subst.
  symmetry. by apply String.eqb_neq.
Qed.

Lemma js_or_truthy v fallback : truthy v = true -> js_or v fallback = v.
Proof. unfold js_or. by intros ->. Qed.

Lemma js_or_idem v fallback :
  js_or (js_or v (VString fallback)) (VString fallback) = js_or v (VString fallback).
Proof.
  unfold js_or. destruct (truthy v) eqn:Ht; [by rewrite Ht|].
  by destruct (truthy (VString fallback)).
Qed.

(** Every value either is one of the protocol's type names or fails each of
    the handler's type tests. *)
Lemma type_cases (ty : JsValue) :
  (exists lit, lit ∈ MESSAGE_TYPES /\ ty = VString lit) \/
  (forall lit, lit ∈ MESSAGE_TYPES -> is_str ty lit = false).
Proof.
  destruct ty; try (right; intros; reflexivity).
  destruct (decide (s ∈ MESSAGE_TYPES)) as [Hin|Hout]; [left; eauto|right].
  intros lit Hlit. rewrite is_str_VString. apply bool_decide_false. congruence.
Qed.

Lemma field_object props p : field (VObject props) p = default VUndefined (props !! p).
Proof. reflexivity. Qed.

Lemma field_type_object data lit :
  is_str (field data "type") lit = true -> exists props, data = VObject props.
Proof. destruct data; simpl; try discriminate. eauto. Qed.

(** ** The store under the handler *)

Lemma store_resetHeartbeatTimer w : store (resetHeartbeatTimer w) = store w.
Proof. unfold resetHeartbeatTimer. by destruct (handle_set (heartbeatTimer w)). Qed.

Lemma console_resetHeartbeatTimer w : console (resetHeartbeatTimer w) = console w.
Proof. unfold resetHeartbeatTimer. by destruct (handle_set (heartbeatTimer w)). Qed.

#[local] Opaque resetHeartbeatTimer.

Ltac handler :=
  unfold deliver, try_catch, handleMessage, bind, lift, modify, ret,
    update_store, update_store_try, addStreamingChunk, js_concat, js_trim; simpl.

Ltac unknown_type H :=
  repeat match goal with
  | |- context [is_str ?ty ?l] =>
      rewrite (H l) by (unfold MESSAGE_TYPES; set_solver)
  end.

Ltac known_type Hlit :=
  unfold MESSAGE_TYPES in Hlit; set_unfold; destruct_or!; subst.

Lemma deliver_all_cons m msgs w :
  deliver_all (m :: msgs) w = deliver_all msgs (deliver m.1 m.2 w).
Proof. reflexivity. Qed.

(** A message that is no object leaves the store as it is. *)
Lemma deliver_not_object now data w :
  (forall props, data <> VObject props) -> store (deliver now data w) = store w.
Proof.
  intros Hno. destruct data; handler; rewrite ?store_resetHeartbeatTimer; try done.
  by destruct (Hno props).
Qed.

(** A message of none of the protocol's types leaves the store as it is. *)
Lemma deliver_unknown_store now props w :
  (forall lit, lit ∈ MESSAGE_TYPES -> is_str (default VUndefined (props !! "type")) lit = false) ->
  store (deliver now (VObject props) w) = store w.
Proof.
  intros Hty. handler. unknown_type Hty. simpl. by rewrite store_resetHeartbeatTimer.
Qed.

Lemma content_fits_step props :
  default VUndefined (props !! "type") = VString "agent_step" ->
  content_fits (VObject props) = true ->
  exists s, js_or (default VUndefined (props !! "content")) (VString "") = VString s.
Proof.
  unfold content_fits. rewrite !field_object. intros ->. simpl. unfold js_or.
  destruct (truthy _); simpl; [|by eauto].
  destruct (default VUndefined (props !! "content")); try done. eauto.
Qed.

Lemma content_fits_chunk props :
  default VUndefined (props !! "type") = VString "agent_stream_chunk" ->
  content_fits (VObject props) = true ->
  exists t, js_to_string (js_or (default VUndefined (props !! "content")) (VString "")) = Some t.
Proof.
  unfold content_fits. rewrite !field_object. intros ->. simpl. unfold js_or.
  intros [t Ht]%bool_decide_eq_true. destruct (truthy _); eauto.
Qed.

(** One message moves the status as the table says, when the handler can
    take its content. *)
Lemma deliver_status now data w :
  content_fits data = true ->
  agentStatus (store (deliver now data w)) =
    default (agentStatus (store w)) (table_status data).
Proof.
  intros Hfit.
  destruct data;
    try (rewrite deliver_not_object by (intros ? [=]); reflexivity).
  unfold table_status. rewrite !field_object.
  destruct (type_cases (default VUndefined (props !! "type"))) as [(lit & Hlit & Hty)|Hty].
  - handler. rewrite Hty. known_type Hlit; simpl;
      rewrite ?store_resetHeartbeatTimer; try done.
    + destruct (content_fits_step _ Hty Hfit) as [c ->]. simpl.
      rewrite !is_str_js_or by done.
      destruct (is_str (default VUndefined (props !! "step_type")) "thinking"); [done|].
      destruct (is_str (default VUndefined (props !! "step_type")) "llm_text"); [done|].
      destruct (is_str (default VUndefined (props !! "step_type")) "tool_call"); [done|].
      destruct (is_str (default VUndefined (props !! "step_type")) "tool_result"); simpl;
        by rewrite ?store_resetHeartbeatTimer.
    + rewrite js_or_idem. by destruct (content_fits_chunk _ Hty Hfit) as [t ->].
  - rewrite deliver_unknown_store by done. unknown_type Hty. done.
Qed.

(** And a message whose content the handler cannot take leaves the status
    as it was: the exception is raised before the status is set. *)
Lemma deliver_status_rejected now data w :
  content_fits data = false ->
  agentStatus (store (deliver now data w)) = agentStatus (store w).
Proof.
  unfold content_fits. intros Hfit.
  destruct (is_str (field data "type") "agent_step") eqn:Hstep.
  - destruct (field_type_object _ _ Hstep) as [props ->].
    rewrite !field_object in *. apply is_str_true in Hstep.
    apply orb_false_iff in Hfit as [Ht%negb_false_iff Hs].
    handler. rewrite Hstep. simpl.
    rewrite (js_or_truthy (default VUndefined (props !! "content"))) by done.
    destruct (default VUndefined (props !! "content")); try done;
      simpl; by rewrite store_resetHeartbeatTimer.
  - destruct (is_str (field data "type") "agent_stream_chunk") eqn:Hchunk; [|done].
    destruct (field_type_object _ _ Hchunk) as [props ->].
    rewrite !field_object in *. apply is_str_true in Hchunk.
    apply bool_decide_eq_false in Hfit.
    assert (js_to_string (default VUndefined (props !! "content")) = None) as Hnone
      by (destruct (js_to_string _); [by destruct Hfit|done]).
    assert (truthy (default VUndefined (props !! "content")) = true) as Ht
      by (by destruct (default VUndefined (props !! "content")) as [| |[]| | | |]).
    handler. rewrite Hchunk. simpl. rewrite js_or_idem, js_or_truthy, Hnone by done.
    simpl. by rewrite store_resetHeartbeatTimer.
Qed.

Lemma status_after_cons previous data history :
  status_after previous (data :: history) =
    status_after (default previous (table_status data)) history.
Proof.
  unfold status_after. destruct (table_status data) as [s|] eqn:E.
  - replace (omap table_status (data :: history)) with (s :: omap table_status history)
      by (simpl; by rewrite E).
    rewrite last_cons. by destruct (last (omap table_status history)).
  - replace (omap table_status (data :: history)) with (omap table_status history)
      by (simpl; by rewrite E).
    done.
Qed.

(** C1 (as amended): for every sequence of decoded messages in which each
    [agent_step] has a content that is a string or falsy and each
    [agent_stream_chunk] a content that has a string form, delivered from the
    initial state at any arrival times, the status is the one the table of
    section 4.3 gives the last status-affecting message ([idle] when there is
    none). *)
Theorem status_is_function_of_history (msgs : list (Z * JsValue)) :
  Forall (fun m => content_fits m.2 = true) msgs ->
  agentStatus (store (deliver_all msgs initial_world)) = status_of_history msgs.*2.
Proof.
  intros Hall. unfold status_of_history.
  change "idle" with (agentStatus (store initial_world)).
  generalize initial_world.
  induction Hall as [|m msgs Hm _ IH]; intros w; [done|].
  rewrite deliver_all_cons, IH, fmap_cons, status_after_cons.
  by rewrite deliver_status.
Qed.

(** C8: a terminal message ([agent_response], [agent_stopped], [error])
    appends exactly one chat message -- an assistant message with the
    payload's content, an assistant message with the fallback text where the
    content is empty or missing, an error message -- and clears both
    streaming buffers; the earlier messages and the steps stay as they were. *)
Theorem terminal_message_appended now data w m :
  terminal_message data = Some m ->
  messages (store (deliver now data w)) = messages (store w) ++ [mkChatMessage m now now] /\
  streamingContent (store (deliver now data w)) = "" /\
  liveAssistantContent (store (deliver now data w)) = "" /\
  agentSteps (store (deliver now data w)) = agentSteps (store w).
Proof.
  unfold terminal_message.
  destruct data; try (simpl; discriminate).
  rewrite !field_object.
  destruct (type_cases (default VUndefined (props !! "type"))) as [(lit & Hlit & Hty)|Hty].
  - handler. rewrite Hty.
    known_type Hlit; simpl; try discriminate; intros [= <-]; simpl;
      by rewrite ?store_resetHeartbeatTimer.
  - unknown_type Hty. discriminate.
Qed.

(** C10 (as amended): an [agent_step] whose [step_type] is none of the four
    known kinds is appended to the steps, and the status and both streaming
    buffers stay as they were.  The kind it is recorded under is
    [data.step_type || data.type]: the [step_type] as given where that is
    truthy, and the message type [agent_step] where it is missing or falsy
    (the empty string, [0], [null], [false]). *)
Theorem unknown_step_kind_recorded now data w :
  is_str (field data "type") "agent_step" = true ->
  (forall k, k ∈ STEP_KINDS -> is_str (field data "step_type") k = false) ->
  let kind := js_or (field data "step_type") (field data "type") in
  agentSteps (store (deliver now data w)) = agentSteps (store w) ++ [mkStep data kind] /\
  (truthy (field data "step_type") = true -> kind = field data "step_type") /\
  (truthy (field data "step_type") = false -> kind = VString "agent_step") /\
  agentStatus (store (deliver now data w)) = agentStatus (store w) /\
  streamingContent (store (deliver now data w)) = streamingContent (store w) /\
  liveAssistantContent (store (deliver now data w)) = liveAssistantContent (store w).
Proof.
  intros Hty Hkind kind.
  split_and!;
    [| unfold kind, js_or; by intros ->
     | unfold kind, js_or; intros ->; by apply is_str_true |..];
    destruct (field_type_object _ _ Hty) as [props ->];
    subst kind; rewrite !field_object in *; apply is_str_true in Hty;
    handler; rewrite Hty; simpl;
    rewrite !is_str_js_or by done;
    rewrite !Hkind by (unfold STEP_KINDS; set_solver); simpl;
    destruct (js_or (default VUndefined (props !! "content")) (VString ""));
    simpl; by rewrite ?store_resetHeartbeatTimer.
Qed.

Lemma chunk_text_string_form data :
  chunk_text data =
    default "" (js_to_string (js_or (field data "content") (VString ""))).
Proof.
  unfold chunk_text, js_or.
  destruct (field data "content") as [| |b|n|s|items|fields]; try done;
    try (by destruct (truthy _)).
  simpl. destruct (String.eqb_spec s ""); by subst.
Qed.

Lemma deliver_chunk now data w :
  is_chunk data = true ->
  streamingContent (store (deliver now data w)) =
    (streamingContent (store w) ++ chunk_text data)%string.
Proof.
  unfold is_chunk. intros Hty. rewrite chunk_text_string_form.
  destruct (field_type_object _ _ Hty) as [props ->].
  rewrite !field_object in *. apply is_str_true in Hty.
  handler. rewrite Hty. simpl. rewrite js_or_idem, str_or_empty.
  destruct (js_to_string _) as [t|]; simpl;
    by rewrite ?store_resetHeartbeatTimer, ?append_empty_r.
Qed.

(** C4: the stream chunks of a sequence are appended to [streamingContent]
    in their order of arrival; a chunk whose content is missing or empty
    appends nothing, one whose content is a string appends that string. *)
Theorem stream_chunks_accumulate (chunks : list (Z * JsValue)) w :
  Forall (fun m => is_chunk m.2 = true) chunks ->
  streamingContent (store (deliver_all chunks w)) =
    (streamingContent (store w) ++ concat_text (map (fun m => chunk_text m.2) chunks))%string
  /\ (forall data,
        field data "content" = VUndefined \/ field data "content" = VNull \/
        field data "content" = VString "" -> chunk_text data = "")
  /\ (forall data s, field data "content" = VString s -> chunk_text data = s).
Proof.
  intros Hall. split_and!.
  - revert w. induction Hall as [|m chunks Hm _ IH]; intros w.
    + simpl. by rewrite append_empty_r.
    + rewrite deliver_all_cons, IH, deliver_chunk by done.
      by rewrite append_assoc.
  - unfold chunk_text. by intros data [-> | [-> | ->]].
  - unfold chunk_text. by intros data s ->.
Qed.

(** C9: [ws.onmessage] returns for every frame and never lets an exception
    out; a frame that does not parse is logged and leaves the whole world
    but the console as it was; a frame that parses to a message of none of
    the protocol's types is logged and leaves the store (history, status,
    buffers) as it was. *)
Theorem onmessage_never_raises now event_data w :
  snd (onmessage now event_data w) = Normal tt /\
  (JSON_parse event_data = None ->
     fst (onmessage now event_data w) = log (ErrorParse SyntaxError) w) /\
  (forall data,
     JSON_parse event_data = Some data ->
     (forall lit, lit ∈ MESSAGE_TYPES -> is_str (field data "type") lit = false) ->
     store (fst (onmessage now event_data w)) = store w /\
     console (fst (onmessage now event_data w)) =
       console w ++ [match get data "type" with
                     | Normal type => LogUnknownType type
                     | Throw e => ErrorParse e
                     end]).
Proof.
  split_and!.
  - unfold onmessage, try_catch.
    destruct (JSON_parse event_data) as [data|]; [|done].
    by destruct (handleMessage now data w) as [w' [[]|e]].
  - intros Hparse. unfold onmessage, try_catch. by rewrite Hparse.
  - intros data Hparse Hty. unfold onmessage. rewrite Hparse.
    change (try_catch (handleMessage now data) (fun e => modify (log (ErrorParse e))) w).1
      with (deliver now data w).
    destruct data; rewrite ?field_object in Hty;
      handler; unknown_type Hty; simpl;
      by rewrite ?store_resetHeartbeatTimer, ?console_resetHeartbeatTimer.
Qed.

(** ** Pending timeouts and their handles *)

#[local] Transparent resetHeartbeatTimer.

Lemma TimerInv_initial : TimerInv initial_world.
Proof. constructor; simpl; intros; by simplify_map_eq. Qed.

Lemma TimerInv_ext w w' :
  timers w' = timers w -> next_timer w' = next_timer w ->
  heartbeatTimer w' = heartbeatTimer w -> reconnectTimeout w' = reconnectTimeout w ->
  TimerInv w -> TimerInv w'.
Proof. intros E1 E2 E3 E4 [? ? ? ? ? ? ?]. constructor; rewrite ?E1, ?E2, ?E3, ?E4; done. Qed.

Lemma TimerInv_hb w :
  TimerInv w -> heartbeatTimer w = None \/ exists h, heartbeatTimer w = Some (S h).
Proof.
  intros HI. destruct (heartbeatTimer w) as [[|h]|] eqn:E; eauto.
  destruct (inv_hb_lt _ HI _ E). lia.
Qed.

Lemma TimerInv_rc w :
  TimerInv w -> reconnectTimeout w = None \/ exists h, reconnectTimeout w = Some (S h).
Proof.
  intros HI. destruct (reconnectTimeout w) as [[|h]|] eqn:E; eauto.
  destruct (inv_rc_pending _ HI _ E) as (t & Ht & _).
  destruct (inv_timers_lt _ HI _ _ Ht). lia.
Qed.

Lemma TimerInv_rc_unset w :
  TimerInv w -> handle_set (reconnectTimeout w) = false -> reconnectTimeout w = None.
Proof. intros HI. by destruct (TimerInv_rc _ HI) as [->|[h ->]]. Qed.

(** [if (heartbeatTimer.current) clearTimeout(heartbeatTimer.current)] *)
Lemma TimerInv_stop_heartbeat w :
  TimerInv w ->
  TimerInv (if handle_set (heartbeatTimer w)
            then clearTimeout (default 0%nat (heartbeatTimer w)) w else w).
Proof.
  intros HI. destruct (TimerInv_hb _ HI) as [E|[hb E]]; rewrite E; simpl; [done|].
  constructor; simpl.
  - by apply inv_next.
  - intros h t [_ Hl]%lookup_delete_Some. by eapply inv_timers_lt.
  - by apply inv_hb_lt.
  - intros h t [Hne Hl]%lookup_delete_Some Hk.
    pose proof (inv_hb_only _ HI _ _ Hl Hk). congruence.
  - intros h t Hh [_ Hl]%lookup_delete_Some. by eapply inv_hb_kind.
  - intros h t [_ Hl]%lookup_delete_Some. by eapply inv_rc_only.
  - intros h Hr. destruct (inv_rc_pending _ HI _ Hr) as (t & Ht & Hk).
    exists t. split; [|done]. rewrite lookup_delete_ne; [done|].
    intros <-. pose proof (inv_hb_kind _ HI _ _ E Ht). congruence.
Qed.

(** No watchdog is pending once it was stopped. *)
Lemma stop_heartbeat_none w h t :
  TimerInv w ->
  timers (if handle_set (heartbeatTimer w)
          then clearTimeout (default 0%nat (heartbeatTimer w)) w else w) !! h = Some t ->
  is_reconnect t = true.
Proof.
  intros HI. destruct (is_reconnect t) eqn:Hk; [done|].
  destruct (TimerInv_hb _ HI) as [E|[hb E]]; rewrite E; simpl.
  - intros Hl. pose proof (inv_hb_only _ HI _ _ Hl Hk). congruence.
  - intros [Hne Hl]%lookup_delete_Some.
    pose proof (inv_hb_only _ HI _ _ Hl Hk). congruence.
Qed.

Lemma TimerInv_resetHeartbeatTimer w : TimerInv w -> TimerInv (resetHeartbeatTimer w).
Proof.
  intros HI. unfold resetHeartbeatTimer.
  pose proof (TimerInv_stop_heartbeat _ HI) as HI1.
  pose proof (fun h t => stop_heartbeat_none w h t HI) as Hnone.
  set (w1 := if handle_set (heartbeatTimer w) then _ else w) in *.
  pose proof (inv_next _ HI1) as Hnext.
  simpl. constructor; simpl.
  - lia.
  - intros h t [[<- <-]|[_ Hl]]%lookup_insert_Some; [lia|].
    destruct (inv_timers_lt _ HI1 _ _ Hl). lia.
  - intros h [= <-]. lia.
  - intros h t [[<- <-]|[Hne Hl]]%lookup_insert_Some Hk; [done|].
    apply Hnone in Hl. congruence.
  - intros h t [= <-]. rewrite lookup_insert_eq. by intros [= <-].
  - intros h t [[<- <-]|[Hne Hl]]%lookup_insert_Some Hk; [done|].
    by eapply inv_rc_only.
  - intros h Hr.
    destruct (inv_rc_pending _ HI1 _ Hr) as (t & Ht & Hk).
    exists t. split; [|done]. rewrite lookup_insert_ne; [done|].
    intros <-. destruct (inv_timers_lt _ HI1 _ _ Ht). lia.
Qed.

(** [if (x) { clearTimeout(x); x = null }] on the watchdog's ref *)
Lemma TimerInv_clear_heartbeat w :
  TimerInv w ->
  TimerInv (if handle_set (heartbeatTimer w)
            then with_heartbeatTimer None
                   (clearTimeout (default 0%nat (heartbeatTimer w)) w)
            else w).
Proof.
  intros HI. pose proof (TimerInv_stop_heartbeat _ HI) as HI1.
  pose proof (fun h t => stop_heartbeat_none w h t HI) as Hnone.
  destruct (TimerInv_hb _ HI) as [E|[hb E]]; rewrite E in *; simpl in *; [done|].
  constructor; simpl.
  - by apply (inv_next _ HI1).
  - by apply (inv_timers_lt _ HI1).
  - done.
  - intros h t Hl Hk. apply Hnone in Hl. congruence.
  - done.
  - by apply (inv_rc_only _ HI1).
  - by apply (inv_rc_pending _ HI1).
Qed.

(** [if (x) { clearTimeout(x); x = null }] on the reconnect's ref *)
Lemma TimerInv_clear_reconnect w :
  TimerInv w ->
  TimerInv (if handle_set (reconnectTimeout w)
            then with_reconnectTimeout None
                   (clearTimeout (default 0%nat (reconnectTimeout w)) w)
            else w).
Proof.
  intros HI. destruct (TimerInv_rc _ HI) as [E|[rc E]]; rewrite E; simpl; [done|].
  constructor; simpl.
  - by apply inv_next.
  - intros h t [_ Hl]%lookup_delete_Some. by eapply inv_timers_lt.
  - by apply inv_hb_lt.
  - intros h t [_ Hl]%lookup_delete_Some. by eapply inv_hb_only.
  - intros h t Hh [_ Hl]%lookup_delete_Some. by eapply inv_hb_kind.
  - intros h t [Hne Hl]%lookup_delete_Some Hk.
    pose proof (inv_rc_only _ HI _ _ Hl Hk). congruence.
  - done.
Qed.

(** [reconnectTimeout.current = setTimeout(..., delay)] while none is set *)
Lemma TimerInv_schedule pid ms w :
  TimerInv w -> reconnectTimeout w = None ->
  TimerInv (with_reconnectTimeout (Some (next_timer w))
              (setTimeout (Reconnect pid) ms w).2).
Proof.
  intros HI Hr. pose proof (inv_next _ HI).
  constructor; simpl.
  - lia.
  - intros h t [[<- <-]|[_ Hl]]%lookup_insert_Some; [lia|].
    destruct (inv_timers_lt _ HI _ _ Hl). lia.
  - intros h Hh. destruct (inv_hb_lt _ HI _ Hh). lia.
  - intros h t [[<- <-]|[_ Hl]]%lookup_insert_Some Hk; [done|].
    by eapply inv_hb_only.
  - intros h t Hh [[<- <-]|[_ Hl]]%lookup_insert_Some.
    + destruct (inv_hb_lt _ HI _ Hh). lia.
    + by eapply inv_hb_kind.
  - intros h t [[<- <-]|[_ Hl]]%lookup_insert_Some Hk; [done|].
    pose proof (inv_rc_only _ HI _ _ Hl Hk). congruence.
  - intros h [= <-]. rewrite lookup_insert_eq. eauto.
Qed.

(** A watchdog timeout comes due. *)
Lemma TimerInv_fire_heartbeat h t w :
  TimerInv w -> timers w !! h = Some t -> is_reconnect t = false ->
  TimerInv (with_timers (delete h) w).
Proof.
  intros HI Hl Hk. constructor; simpl.
  - by apply inv_next.
  - intros h' t' [_ Hl']%lookup_delete_Some. by eapply inv_timers_lt.
  - by apply inv_hb_lt.
  - intros h' t' [_ Hl']%lookup_delete_Some. by eapply inv_hb_only.
  - intros h' t' Hh [_ Hl']%lookup_delete_Some. by eapply inv_hb_kind.
  - intros h' t' [_ Hl']%lookup_delete_Some. by eapply inv_rc_only.
  - intros h' Hr. destruct (inv_rc_pending _ HI _ Hr) as (t' & Ht' & Hk').
    exists t'. split; [|done]. rewrite lookup_delete_ne; [done|].
    intros <-. congruence.
Qed.

(** A reconnect timeout comes due and its callback nulls the ref. *)
Lemma TimerInv_fire_reconnect h t w :
  TimerInv w -> timers w !! h = Some t -> is_reconnect t = true ->
  TimerInv (with_reconnectTimeout None (with_timers (delete h) w)).
Proof.
  intros HI Hl Hk. constructor; simpl.
  - by apply inv_next.
  - intros h' t' [_ Hl']%lookup_delete_Some. by eapply inv_timers_lt.
  - by apply inv_hb_lt.
  - intros h' t' [_ Hl']%lookup_delete_Some. by eapply inv_hb_only.
  - intros h' t' Hh [_ Hl']%lookup_delete_Some. by eapply inv_hb_kind.
  - intros h' t' [Hne Hl']%lookup_delete_Some Hk'.
    pose proof (inv_rc_only _ HI _ _ Hl Hk).
    pose proof (inv_rc_only _ HI _ _ Hl' Hk'). congruence.
  - done.
Qed.

Lemma TimerInv_with_store f w : TimerInv w -> TimerInv (with_store f w).
Proof. by apply TimerInv_ext. Qed.
Lemma TimerInv_log l w : TimerInv w -> TimerInv (log l w).
Proof. by apply TimerInv_ext. Qed.
Lemma TimerInv_with_isConnectingRef b w : TimerInv w -> TimerInv (with_isConnectingRef b w).
Proof. by apply TimerInv_ext. Qed.
Lemma TimerInv_with_wsRef r w : TimerInv w -> TimerInv (with_wsRef r w).
Proof. by apply TimerInv_ext. Qed.
Lemma TimerInv_with_sockets f w : TimerInv w -> TimerInv (with_sockets f w).
Proof. by apply TimerInv_ext. Qed.

Lemma TimerInv_same_hook w w' : same_hook w w' -> TimerInv w -> TimerInv w'.
Proof. intros (? & ? & ? & ? & ? & ? & ? & ? & ?). by apply TimerInv_ext. Qed.

Ltac timer_frame :=
  repeat first
    [ assumption
    | apply TimerInv_with_store | apply TimerInv_log
    | apply TimerInv_with_isConnectingRef | apply TimerInv_with_wsRef
    | apply TimerInv_with_sockets ].

Lemma TimerInv_connect pid w : TimerInv w -> TimerInv (connect pid w).
Proof.
  intros HI. unfold connect, new_WebSocket, ws_close.
  repeat (match goal with |- TimerInv (if ?b then _ else _) => destruct b end;
          [done|]).
  cbv zeta. cbv beta iota. apply TimerInv_with_wsRef, TimerInv_with_sockets, TimerInv_log.
  apply TimerInv_clear_reconnect.
  destruct (wsRef (with_isConnectingRef true w)); timer_frame.
Qed.

Lemma TimerInv_cleanup w : TimerInv w -> TimerInv (cleanup w).
Proof.
  intros HI. unfold cleanup, ws_close. cbv zeta.
  apply TimerInv_with_isConnectingRef.
  match goal with |- TimerInv (match wsRef ?x with _ => _ end) =>
    assert (TimerInv x) by (by apply TimerInv_clear_reconnect, TimerInv_clear_heartbeat);
    destruct (wsRef x) end; timer_frame.
Qed.

Lemma TimerInv_onopen s w : TimerInv w -> TimerInv (onopen s w).
Proof.
  intros HI. unfold onopen. cbv zeta.
  apply TimerInv_with_store, TimerInv_resetHeartbeatTimer. timer_frame.
Qed.

Lemma TimerInv_onclose pid s code w : TimerInv w -> TimerInv (onclose pid s code w).
Proof.
  intros HI. unfold onclose. cbv zeta.
  match goal with |- TimerInv (if _ && negb (handle_set (reconnectTimeout ?x)) && _ then _ else _) =>
    assert (TimerInv x) as HI4
      by (apply TimerInv_with_store, TimerInv_stop_heartbeat; timer_frame);
    generalize dependent x; intros w4 HI4 end.
  destruct (negb (code =? 1000)); cbn [andb]; [|done].
  destruct (handle_set (reconnectTimeout w4)) eqn:Hset; cbn [andb negb]; [done|].
  case_bool_decide; [|done]. unfold setTimeout.
  by apply TimerInv_schedule, TimerInv_rc_unset.
Qed.

Lemma TimerInv_onerror w : TimerInv w -> TimerInv (onerror w).
Proof. intros HI. unfold onerror. timer_frame. Qed.

Lemma TimerInv_heartbeat_expired w : TimerInv w -> TimerInv (heartbeat_expired w).
Proof.
  intros HI. unfold heartbeat_expired, ws_close. cbv zeta.
  destruct (ws_is OPEN _); timer_frame.
Qed.
(** ** What the message handler leaves alone *)

Lemma same_hook_refl w : same_hook w w.
Proof. by repeat split. Qed.

Lemma same_hook_trans w1 w2 w3 : same_hook w1 w2 -> same_hook w2 w3 -> same_hook w1 w3.
Proof.
  intros (?&?&?&?&?&?&?&?&?) (?&?&?&?&?&?&?&?&?). repeat split; congruence.
Qed.

Lemma keeps_ret {A} (a : A) : keeps (ret a).
Proof. intros w. apply same_hook_refl. Qed.

Lemma keeps_lift {A} (c : Completion A) : keeps (lift c).
Proof. intros w. apply same_hook_refl. Qed.

Lemma keeps_bind {A B} (m : M A) (k : A -> M B) :
  keeps m -> (forall a, keeps (k a)) -> keeps (bind m k).
Proof.
  intros Hm Hk w. unfold bind. specialize (Hm w).
  destruct (m w) as [w' [a|e]]; [|done].
  eapply same_hook_trans; [done|]. apply Hk.
Qed.

Lemma keeps_log l : keeps (modify (log l)).
Proof. intros w. by repeat split. Qed.

Lemma keeps_update_store f :
  (forall st, ws (f st) = ws st /\ wsConnected (f st) = wsConnected st) ->
  keeps (update_store f).
Proof. intros Hf w. destruct (Hf (store w)). by repeat split. Qed.

Lemma keeps_addStreamingChunk chunk : keeps (update_store_try (addStreamingChunk chunk)).
Proof.
  intros w. unfold update_store_try, addStreamingChunk.
  destruct (js_concat _ _); by repeat split.
Qed.

Ltac keeps_tac :=
  repeat first
    [ apply keeps_ret | apply keeps_lift | apply keeps_log
    | apply keeps_addStreamingChunk
    | apply keeps_update_store; by intros []
    | apply keeps_bind; [|intros ?]
    | match goal with |- keeps (if ?b then _ else _) => destruct b end ].

(** After the watchdog reset the handler writes to the console and the
    store's data only. *)
Lemma handleMessage_same_hook now data w :
  same_hook (resetHeartbeatTimer w) (handleMessage now data w).1.
Proof.
  unfold handleMessage.
  match goal with |- same_hook _ (bind (modify ?f) ?k w).1 =>
    change (bind (modify f) k w) with (k tt (f w));
    cut (keeps (k tt)); [intros Hk; apply Hk|]
  end.
  keeps_tac.
Qed.

Lemma deliver_same_hook now data w :
  same_hook (resetHeartbeatTimer w) (deliver now data w).
Proof.
  unfold deliver, try_catch.
  pose proof (handleMessage_same_hook now data w) as Hk.
  destruct (handleMessage now data w) as [w' [[]|e]]; [done|].
  eapply same_hook_trans; [done|]. by repeat split.
Qed.

Lemma onmessage_cases now event_data w :
  (exists data, JSON_parse event_data = Some data /\
     (onmessage now event_data w).1 = deliver now data w) \/
  (JSON_parse event_data = None /\
     (onmessage now event_data w).1 = log (ErrorParse SyntaxError) w).
Proof.
  unfold onmessage. destruct (JSON_parse event_data) as [data|]; [left|right]; eauto.
Qed.

Lemma TimerInv_onmessage now event_data w :
  TimerInv w -> TimerInv (onmessage now event_data w).1.
Proof.
  intros HI. destruct (onmessage_cases now event_data w) as [(data & _ & ->)|[_ ->]].
  - eapply TimerInv_same_hook; [apply deliver_same_hook|].
    by apply TimerInv_resetHeartbeatTimer.
  - by apply TimerInv_log.
Qed.

(** ** What the store's outbound actions leave alone *)

(** [w'] has the refs and timers of [w], and its sockets but for what they
    have sent. *)
Lemma sendMessage_frame now message imgs files w :
  let w' := (sendMessage now message imgs files w).1 in
  wsRef w' = wsRef w /\ reconnectTimeout w' = reconnectTimeout w /\
  isConnectingRef w' = isConnectingRef w /\ heartbeatTimer w' = heartbeatTimer w /\
  timers w' = timers w /\ next_timer w' = next_timer w /\
  ws (store w') = ws (store w) /\
  (sockets w' = sockets w \/
   exists s payload, sockets w' = alter (enqueue payload) s (sockets w)).
Proof.
  unfold sendMessage, ws_send, bind, update_store, modify.
  destruct (ws (store w)) as [s|] eqn:Ews; [|simpl; repeat split; eauto].
  destruct (wsConnected (store w)); [|simpl; repeat split; eauto].
  destruct (readyState <$> sockets w !! s) as [[]|]; simpl; repeat split; eauto.
Qed.

Lemma stopAgent_frame w :
  let w' := (stopAgent w).1 in
  wsRef w' = wsRef w /\ reconnectTimeout w' = reconnectTimeout w /\
  isConnectingRef w' = isConnectingRef w /\ heartbeatTimer w' = heartbeatTimer w /\
  timers w' = timers w /\ next_timer w' = next_timer w /\
  ws (store w') = ws (store w) /\
  (sockets w' = sockets w \/
   exists s payload, sockets w' = alter (enqueue payload) s (sockets w)).
Proof.
  unfold stopAgent, ws_send, bind, update_store, modify.
  destruct (ws (store w)) as [s|] eqn:Ews; [|simpl; repeat split; eauto].
  destruct (wsConnected (store w)); [|simpl; repeat split; eauto].
  destruct (readyState <$> sockets w !! s) as [[]|]; simpl; repeat split; eauto.
Qed.

Lemma TimerInv_step ev w : TimerInv w -> TimerInv (step ev w).
Proof.
  intros HI. destruct ev; simpl.
  - by apply TimerInv_connect.
  - by apply TimerInv_cleanup.
  - destruct (sockets w !! s) as [sock|]; [|done].
    destruct (readyState sock); try done.
    by apply TimerInv_onopen, TimerInv_with_sockets.
  - destruct (sockets w !! s) as [sock|]; [|done].
    destruct (readyState sock); try done.
    by apply TimerInv_onmessage.
  - destruct (sockets w !! s) as [sock|]; [|done].
    destruct (close_fired sock); [done|].
    by apply TimerInv_onerror, TimerInv_with_sockets.
  - destruct (sockets w !! s) as [sock|]; [|done].
    destruct (close_fired sock); [done|].
    by apply TimerInv_onclose, TimerInv_with_sockets.
  - destruct (timers w !! handle) as [t|] eqn:Hl; [|done].
    destruct (callback t) as [|pid] eqn:Hcb.
    + apply TimerInv_heartbeat_expired.
      eapply TimerInv_fire_heartbeat; [done..|].
      unfold is_reconnect. by rewrite Hcb.
    + apply TimerInv_connect.
      eapply TimerInv_fire_reconnect; [done..|].
      unfold is_reconnect. by rewrite Hcb.
  - destruct (sendMessage_frame now message imgs files w) as (?&?&?&?&?&?&?&?).
    by eapply TimerInv_ext.
  - destruct (stopAgent_frame w) as (?&?&?&?&?&?&?&?).
    by eapply TimerInv_ext.
Qed.

Lemma run_snoc evs ev w : run (evs ++ [ev]) w = step ev (run evs w).
Proof. unfold run. by rewrite foldl_snoc. Qed.

(** ** Sockets *)

Lemma SocketInv_initial : SocketInv initial_world.
Proof. constructor; simpl; intros; by simplify_eq. Qed.

Lemma SocketInv_ext w w' :
  sockets w' = sockets w -> wsRef w' = wsRef w ->
  reconnectTimeout w' = reconnectTimeout w -> ws (store w') = ws (store w) ->
  SocketInv w -> SocketInv w'.
Proof. intros E1 E2 E3 E4 [? ? ? ? ?]. constructor; rewrite ?E1, ?E2, ?E3, ?E4; done. Qed.

Lemma SocketInv_same_hook w w' : same_hook w w' -> SocketInv w -> SocketInv w'.
Proof. intros (? & ? & ? & ? & ? & ? & ? & ? & ?). by apply SocketInv_ext. Qed.

Lemma lookup_alter_Some {A} (f : A -> A) (l : list A) i j y :
  alter f i l !! j = Some y ->
  exists x, l !! j = Some x /\ ((i <> j /\ y = x) \/ (i = j /\ y = f x)).
Proof.
  destruct (decide (i = j)) as [->|Hne].
  - rewrite list_lookup_alter_eq. destruct (l !! j) as [x|]; [|done].
    intros [= <-]. eauto.
  - rewrite list_lookup_alter_ne by done. eauto.
Qed.

Lemma lookup_alter_is_Some {A} (f : A -> A) (l : list A) i j :
  is_Some (l !! j) -> is_Some (alter f i l !! j).
Proof. rewrite !lookup_lt_is_Some. by rewrite length_alter. Qed.

Lemma SocketInv_alter f s w :
  SocketInv w ->
  (forall sock, sockets w !! s = Some sock -> respects f sock) ->
  SocketInv (with_sockets (alter f s) w).
Proof.
  intros HI Hf. constructor; simpl.
  - intros s' Hr. apply lookup_alter_is_Some. by eapply inv_ws_alloc.
  - intros s' sock' (sock & Hl & [[_ ->]|[<- ->]])%lookup_alter_Some Hne.
    + by eapply inv_others.
    + apply (Hf _ Hl). by eapply inv_others.
  - intros s' sock' (sock & Hl & [[_ ->]|[<- ->]])%lookup_alter_Some.
    + by eapply inv_fired.
    + apply (Hf _ Hl).
  - intros s' Hs. destruct (inv_store_ws _ HI _ Hs) as (sock & Hl & Hst).
    destruct (decide (s = s')) as [->|Hne].
    + exists (f sock). rewrite list_lookup_alter_eq, Hl. split; [done|].
      by apply (Hf _ Hl).
    + exists sock. by rewrite list_lookup_alter_ne.
  - intros h Hr. destruct (inv_rc_closed _ HI _ Hr) as (s' & sock & Hw & Hl & Hfired).
    destruct (decide (s = s')) as [->|Hne].
    + exists s', (f sock). rewrite list_lookup_alter_eq, Hl. split_and!; [done..|].
      by apply (Hf _ Hl).
    + exists s', sock. by rewrite list_lookup_alter_ne.
Qed.

Lemma live_close_socket code sock : live (close_socket code sock) = false.
Proof. unfold close_socket, live. by destruct (readyState sock) eqn:E; simpl; rewrite ?E. Qed.

Lemma close_socket_idle code sock : live sock = false -> close_socket code sock = sock.
Proof. unfold close_socket, live. by destruct (readyState sock). Qed.

Lemma respects_close_socket code w s sock :
  SocketInv w -> sockets w !! s = Some sock -> respects (close_socket code) sock.
Proof.
  intros HI Hl. pose proof (inv_fired _ HI _ _ Hl) as Hfired.
  unfold respects, close_socket.
  destruct (readyState sock) eqn:E; simpl; rewrite ?E; split_and!; try done;
    intros Hf; specialize (Hfired Hf); congruence.
Qed.

Lemma respects_enqueue payload w s sock :
  SocketInv w -> sockets w !! s = Some sock -> respects (enqueue payload) sock.
Proof.
  intros HI Hl. pose proof (inv_fired _ HI _ _ Hl).
  unfold respects, enqueue, live. simpl. by split_and!.
Qed.

Lemma respects_mark_closed sock : respects mark_closed sock.
Proof. unfold respects, mark_closed, live. simpl. by split_and!. Qed.

Lemma respects_error w s sock :
  SocketInv w -> sockets w !! s = Some sock -> respects (set_readyState CLOSED) sock.
Proof. intros HI Hl. unfold respects, live. simpl. by split_and!. Qed.

Lemma respects_open w s sock :
  SocketInv w -> sockets w !! s = Some sock -> readyState sock = CONNECTING ->
  respects (set_readyState OPEN) sock.
Proof.
  intros HI Hl Hst. pose proof (inv_fired _ HI _ _ Hl) as Hfired.
  unfold respects, live. simpl. rewrite Hst. split_and!; try done.
  intros Hf. specialize (Hfired Hf). congruence.
Qed.

Lemma SocketInv_ws_close s code w : SocketInv w -> SocketInv (ws_close s code w).
Proof.
  intros HI. apply SocketInv_alter; [done|].
  intros sock Hl. by eapply respects_close_socket.
Qed.

Lemma SocketInv_setWs_None w : SocketInv w -> SocketInv (with_store (setWs None) w).
Proof.
  intros HI. constructor; simpl; try (by apply HI). done.
Qed.

Lemma SocketInv_setWs_Some s sock w :
  SocketInv w -> sockets w !! s = Some sock -> readyState sock <> CONNECTING ->
  SocketInv (with_store (setWs (Some s)) w).
Proof.
  intros HI Hl Hst. constructor; simpl; try (by apply HI).
  intros s' [= <-]. eauto.
Qed.

Lemma SocketInv_with_reconnectTimeout_None w :
  SocketInv w -> SocketInv (with_reconnectTimeout None w).
Proof. intros HI. constructor; simpl; try (by apply HI). done. Qed.

Lemma SocketInv_schedule h s sock w :
  SocketInv w -> wsRef w = Some s -> sockets w !! s = Some sock ->
  close_fired sock = true ->
  SocketInv (with_reconnectTimeout (Some h) w).
Proof. intros HI Hw Hl Hf. constructor; simpl; try (by apply HI). eauto. Qed.

Lemma SocketInv_with_isConnectingRef b w : SocketInv w -> SocketInv (with_isConnectingRef b w).
Proof. by apply SocketInv_ext. Qed.
Lemma SocketInv_log l w : SocketInv w -> SocketInv (log l w).
Proof. by apply SocketInv_ext. Qed.
Lemma SocketInv_with_timers f w : SocketInv w -> SocketInv (with_timers f w).
Proof. by apply SocketInv_ext. Qed.
Lemma SocketInv_with_next_timer n w : SocketInv w -> SocketInv (with_next_timer n w).
Proof. by apply SocketInv_ext. Qed.
Lemma SocketInv_resetHeartbeatTimer w : SocketInv w -> SocketInv (resetHeartbeatTimer w).
Proof.
  apply SocketInv_ext; unfold resetHeartbeatTimer; by destruct (handle_set _).
Qed.

Lemma ws_is_false_live w s sock :
  wsRef w = Some s -> sockets w !! s = Some sock ->
  ws_is CONNECTING w = false -> ws_is OPEN w = false -> live sock = false.
Proof.
  unfold ws_is, ws_readyState, live. intros -> E. simpl. rewrite E. simpl.
  by destruct (readyState sock).
Qed.

(** What [connect] does when it does anything. *)
Lemma connect_cases pid w :
  connect pid w = w \/
  (projectId_set pid = true /\ isConnectingRef w = false /\
   ws_is CONNECTING w = false /\ ws_is OPEN w = false /\
   exists wsUrl,
     sockets (connect pid w) =
       match wsRef w with
       | Some s => alter (close_socket None) s (sockets w)
       | None => sockets w
       end ++ [mkSocket wsUrl CONNECTING None [] (default "" pid) false] /\
     wsRef (connect pid w) = Some (length (sockets w)) /\
     store (connect pid w) = store w /\
     isConnectingRef (connect pid w) = true /\
     heartbeatTimer (connect pid w) = heartbeatTimer w /\
     next_timer (connect pid w) = next_timer w /\
     (handle_set (reconnectTimeout w) = true -> reconnectTimeout (connect pid w) = None) /\
     (handle_set (reconnectTimeout w) = false ->
        reconnectTimeout (connect pid w) = reconnectTimeout w)).
Proof.
  unfold connect, new_WebSocket, ws_close.
  destruct (projectId_set pid); simpl; [|by left].
  destruct (isConnectingRef w); simpl; [by left|].
  destruct (ws_is CONNECTING w); simpl; [by left|].
  destruct (ws_is OPEN w); simpl; [by left|].
  right. split_and!; try done. eexists.
  destruct (wsRef w) as [s|]; destruct (handle_set (reconnectTimeout w)) eqn:E; simpl;
    rewrite ?E; simpl; rewrite ?length_alter; split_and!; try done.
Qed.

(** The sockets after [connect] made a new one: the new one, and the old
    ones, none of them connecting or open any more. *)
Lemma connect_sockets pid w wsUrl s' sock' :
  SocketInv w -> ws_is CONNECTING w = false -> ws_is OPEN w = false ->
  (match wsRef w with
   | Some s => alter (close_socket None) s (sockets w)
   | None => sockets w
   end ++ [mkSocket wsUrl CONNECTING None [] (default "" pid) false]) !! s' = Some sock' ->
  (s' = length (sockets w) /\
   sock' = mkSocket wsUrl CONNECTING None [] (default "" pid) false) \/
  (exists sock, sockets w !! s' = Some sock /\
     (readyState sock <> CONNECTING -> readyState sock' <> CONNECTING) /\
     (close_fired sock' = true -> readyState sock' = CLOSED) /\
     live sock' = false).
Proof.
  intros HI Hc Ho [Hl|[Hlen Hl]]%lookup_app_Some.
  - right. destruct (wsRef w) as [s|] eqn:Ews.
    + apply lookup_alter_Some in Hl as (sock & Hl & Hcase).
      exists sock. split; [done|].
      pose proof (respects_close_socket None _ _ _ HI Hl) as (R1 & R2 & R3 & R4).
      pose proof (inv_fired _ HI _ _ Hl) as Hfired.
      assert (live sock = false) as Hlive.
      { destruct (decide (s = s')) as [->|Hne].
        - apply (ws_is_false_live w s' sock Ews Hl Hc Ho).
        - eapply inv_others; [done..|]. congruence. }
      destruct Hcase as [[_ ->]|[_ ->]]; rewrite ?close_socket_idle by done; by split_and!.
    + exists sock'. split_and!; try done.
      * by eapply inv_fired.
      * eapply inv_others; [done..|]. congruence.
  - left. apply list_lookup_singleton_Some in Hl as [Hz <-].
    split; [|done].
    assert (length (match wsRef w with
                    | Some s => alter (close_socket None) s (sockets w)
                    | None => sockets w
                    end) = length (sockets w)) as Elen
      by (destruct (wsRef w); by rewrite ?length_alter).
    rewrite Elen in *.
    lia.
Qed.

Lemma SocketInv_connect pid w : TimerInv w -> SocketInv w -> SocketInv (connect pid w).
Proof.
  intros HT HI.
  destruct (connect_cases pid w)
    as [->|(_ & _ & Hc & Ho & url & Hs & Hw & Hst & _ & _ & _ & Hr1 & Hr2)]; [done|].
  pose proof (fun s' sock' => connect_sockets pid w url s' sock' HI Hc Ho) as Hlook.
  rewrite <- Hs in Hlook.
  constructor.
  - intros s' Hs'. rewrite Hw in Hs'. injection Hs' as <-.
    apply lookup_lt_is_Some. rewrite Hs, length_app. simpl.
    destruct (wsRef w); rewrite ?length_alter; lia.
  - intros s' sock' Hl Hne.
    destruct (Hlook _ _ Hl) as [[-> _]|(sock & _ & _ & _ & Hlive)]; [|done].
    by rewrite Hw in Hne.
  - intros s' sock' Hl.
    destruct (Hlook _ _ Hl) as [[_ ->]|(sock & _ & _ & Hf & _)]; done.
  - intros s' Hs'. rewrite Hst in Hs'.
    destruct (inv_store_ws _ HI _ Hs') as (sock & Hl & Hne).
    assert (is_Some (sockets (connect pid w) !! s')) as [sock' Hl'].
    { apply lookup_lt_is_Some. rewrite Hs, length_app.
      pose proof (lookup_lt_Some _ _ _ Hl).
      destruct (wsRef w); rewrite ?length_alter; lia. }
    exists sock'. split; [done|].
    destruct (Hlook _ _ Hl') as [[-> _]|(sock0 & Hl0 & Hst0 & _)].
    + pose proof (lookup_lt_Some _ _ _ Hl). lia.
    + apply Hst0. congruence.
  - intros h Hr. destruct (handle_set (reconnectTimeout w)) eqn:E.
    + rewrite Hr1 in Hr; done.
    + rewrite Hr2, (TimerInv_rc_unset _ HT E) in Hr; done.
Qed.

Lemma cleanup_fields w :
  sockets (cleanup w) =
    match wsRef w with
    | Some s => alter (close_socket (Some 1000)) s (sockets w)
    | None => sockets w
    end /\
  wsRef (cleanup w) = None /\ store (cleanup w) = store w /\
  (handle_set (reconnectTimeout w) = true -> reconnectTimeout (cleanup w) = None) /\
  (handle_set (reconnectTimeout w) = false ->
     reconnectTimeout (cleanup w) = reconnectTimeout w).
Proof.
  unfold cleanup, ws_close.
  destruct (handle_set (heartbeatTimer w)); simpl;
    destruct (handle_set (reconnectTimeout w)) eqn:E; simpl; rewrite ?E;
    destruct (wsRef w) eqn:Ew; simpl; rewrite ?Ew; by split_and!.
Qed.

Lemma SocketInv_cleanup w : TimerInv w -> SocketInv w -> SocketInv (cleanup w).
Proof.
  intros HT HI. destruct (cleanup_fields w) as (Hs & Hw & Hst & Hr1 & Hr2).
  assert (forall s' sock', sockets (cleanup w) !! s' = Some sock' ->
            exists sock, sockets w !! s' = Some sock /\
              (readyState sock <> CONNECTING -> readyState sock' <> CONNECTING) /\
              (close_fired sock' = true -> readyState sock' = CLOSED) /\
              live sock' = false) as Hlook.
  { intros s' sock'. rewrite Hs. destruct (wsRef w) as [s|] eqn:Ews.
    - intros (sock & Hl & Hcase)%lookup_alter_Some. exists sock. split; [done|].
      pose proof (respects_close_socket (Some 1000) _ _ _ HI Hl) as (R1 & R2 & R3 & R4).
      destruct Hcase as [[Hne ->]|[<- ->]].
      + split_and!; [done|by eapply inv_fired|].
        eapply inv_others; [done..|]. congruence.
      + split_and!; try done. apply live_close_socket.
    - intros Hl. exists sock'. split_and!; try done.
      + by eapply inv_fired.
      + eapply inv_others; [done..|]. congruence. }
  constructor.
  - intros s'. by rewrite Hw.
  - intros s' sock' Hl _. by destruct (Hlook _ _ Hl) as (sock & _ & _ & _ & Hlive).
  - intros s' sock' Hl. by destruct (Hlook _ _ Hl) as (sock & _ & _ & Hf & _).
  - intros s' Hs'. rewrite Hst in Hs'.
    destruct (inv_store_ws _ HI _ Hs') as (sock & Hl & Hne).
    assert (is_Some (sockets (cleanup w) !! s')) as [sock' Hl'].
    { apply lookup_lt_is_Some. rewrite Hs.
      pose proof (lookup_lt_Some _ _ _ Hl).
      destruct (wsRef w); by rewrite ?length_alter. }
    exists sock'. split; [done|].
    destruct (Hlook _ _ Hl') as (sock0 & Hl0 & Hst0 & _).
    apply Hst0. congruence.
  - intros h Hr. destruct (handle_set (reconnectTimeout w)) eqn:E.
    + rewrite Hr1 in Hr; done.
    + rewrite Hr2, (TimerInv_rc_unset _ HT E) in Hr; done.
Qed.

Lemma SocketInv_onopen s sock w :
  SocketInv w -> sockets w !! s = Some sock -> readyState sock <> CONNECTING ->
  SocketInv (onopen s w).
Proof.
  intros HI Hl Hst. unfold onopen. cbv zeta.
  eapply SocketInv_setWs_Some.
  - by apply SocketInv_resetHeartbeatTimer, SocketInv_with_isConnectingRef, SocketInv_log.
  - unfold resetHeartbeatTimer. destruct (handle_set _); done.
  - done.
Qed.

Lemma SocketInv_onclose pid s sock code w :
  TimerInv w -> SocketInv w -> sockets w !! s = Some sock -> close_fired sock = true ->
  SocketInv (onclose pid s code w).
Proof.
  intros HT HI Hl Hf. unfold onclose. cbv zeta.
  match goal with
  | |- SocketInv (if _ && negb (handle_set (reconnectTimeout ?x)) && _ then _ else _) =>
      assert (SocketInv x) as HI4;
      [|assert (sockets x = sockets w) as Es;
        [|generalize dependent x; intros w4 HI4 Es]]
  end.
  - apply SocketInv_setWs_None.
    destruct (handle_set _); unfold clearTimeout;
      by repeat first [apply SocketInv_with_timers | apply SocketInv_with_isConnectingRef
                      | apply SocketInv_log].
  - simpl. by destruct (handle_set _).
  - destruct (negb (code =? 1000)); cbn [andb]; [|done].
    destruct (handle_set (reconnectTimeout w4)) eqn:Hset; cbn [andb negb]; [done|].
    case_bool_decide as Hw; [|done]. unfold setTimeout. cbn [snd fst].
    eapply (SocketInv_schedule _ s sock);
      [by apply SocketInv_with_next_timer, SocketInv_with_timers|done|simpl; by rewrite Es|done].
Qed.

Lemma SocketInv_onerror w : SocketInv w -> SocketInv (onerror w).
Proof. intros HI. by apply SocketInv_with_isConnectingRef, SocketInv_log. Qed.

Lemma SocketInv_heartbeat_expired w : SocketInv w -> SocketInv (heartbeat_expired w).
Proof.
  intros HI. unfold heartbeat_expired. cbv zeta.
  destruct (ws_is OPEN _); [apply SocketInv_ws_close|]; by apply SocketInv_log.
Qed.

Lemma SocketInv_onmessage now event_data w :
  SocketInv w -> SocketInv (onmessage now event_data w).1.
Proof.
  intros HI. destruct (onmessage_cases now event_data w) as [(data & _ & ->)|[_ ->]].
  - eapply SocketInv_same_hook; [apply deliver_same_hook|].
    by apply SocketInv_resetHeartbeatTimer.
  - by apply SocketInv_log.
Qed.

Lemma SocketInv_sent w w' :
  SocketInv w ->
  wsRef w' = wsRef w -> reconnectTimeout w' = reconnectTimeout w ->
  ws (store w') = ws (store w) ->
  (sockets w' = sockets w \/
   exists s payload, sockets w' = alter (enqueue payload) s (sockets w)) ->
  SocketInv w'.
Proof.
  intros HI Ew Er Es [E|(s & payload & E)].
  - by eapply SocketInv_ext.
  - eapply (SocketInv_ext (with_sockets (alter (enqueue payload) s) w)); try done.
    apply SocketInv_alter; [done|]. intros sock Hl. by eapply respects_enqueue.
Qed.

(** The two invariants together hold in every reachable world. *)
Lemma invariants_step ev w :
  TimerInv w /\ SocketInv w -> TimerInv (step ev w) /\ SocketInv (step ev w).
Proof.
  intros [HT HI]. split; [by apply TimerInv_step|].
  destruct ev; simpl.
  - by apply SocketInv_connect.
  - by apply SocketInv_cleanup.
  - destruct (sockets w !! s) as [sock|] eqn:Hl; [|done].
    destruct (readyState sock) eqn:Hst; try done.
    eapply (SocketInv_onopen _ (set_readyState OPEN sock)).
    + apply SocketInv_alter; [done|]. intros sock' Hl'.
      eapply respects_open; [done..|]. congruence.
    + simpl. by rewrite list_lookup_alter_eq, Hl.
    + done.
  - destruct (sockets w !! s) as [sock|]; [|done].
    destruct (readyState sock); try done.
    by apply SocketInv_onmessage.
  - destruct (sockets w !! s) as [sock|] eqn:Hl; [|done].
    destruct (close_fired sock); [done|].
    apply SocketInv_onerror, SocketInv_alter; [done|].
    intros sock' Hl'. by eapply respects_error.
  - destruct (sockets w !! s) as [sock|] eqn:Hl; [|done].
    destruct (close_fired sock); [done|].
    eapply (SocketInv_onclose _ _ (mark_closed sock)).
    + by apply TimerInv_with_sockets.
    + apply SocketInv_alter; [done|]. intros sock' _. apply respects_mark_closed.
    + simpl. by rewrite list_lookup_alter_eq, Hl.
    + done.
  - destruct (timers w !! handle) as [t|] eqn:Hl; [|done].
    destruct (callback t) as [|pid] eqn:Hcb.
    + by apply SocketInv_heartbeat_expired, SocketInv_with_timers.
    + apply SocketInv_connect.
      * eapply TimerInv_fire_reconnect; [done..|].
        unfold is_reconnect. by rewrite Hcb.
      * by apply SocketInv_with_reconnectTimeout_None, SocketInv_with_timers.
  - destruct (sendMessage_frame now message imgs files w) as (?&?&?&?&?&?&?&?).
    by eapply SocketInv_sent.
  - destruct (stopAgent_frame w) as (?&?&?&?&?&?&?&?).
    by eapply SocketInv_sent.
Qed.

Lemma invariants_reachable w : reachable w -> TimerInv w /\ SocketInv w.
Proof.
  intros [evs ->]. induction evs as [|ev evs IH] using rev_ind.
  - split; [apply TimerInv_initial | apply SocketInv_initial].
  - rewrite run_snoc. by apply invariants_step.
Qed.

Lemma reachable_step ev w : reachable w -> reachable (step ev w).
Proof. intros [evs ->]. exists (evs ++ [ev]). by rewrite run_snoc. Qed.

(** ** The connection manager *)

Lemma reconnect_pending_ref w :
  TimerInv w -> reconnect_pending w = handle_set (reconnectTimeout w).
Proof.
  intros HT. unfold reconnect_pending, reconnect_timers.
  destruct (TimerInv_rc _ HT) as [E|[h E]]; rewrite E; simpl.
  - apply bool_decide_false. intros Hne. apply Hne, map_empty. intros h.
    apply map_lookup_filter_None. right. intros t Hl Hk. simpl in Hk.
    pose proof (inv_rc_only _ HT _ _ Hl Hk). congruence.
  - apply bool_decide_true. intros Hempty.
    destruct (inv_rc_pending _ HT _ E) as (t & Hl & Hk).
    assert (filter (fun ht : nat * Timer => is_reconnect ht.2 = true) (timers w) !! S h = Some t)
      as Hf by (by apply map_lookup_filter_Some).
    by rewrite Hempty in Hf.
Qed.

Lemma stop_heartbeat_fresh w :
  TimerInv w ->
  timers (if handle_set (heartbeatTimer w)
          then clearTimeout (default 0%nat (heartbeatTimer w)) w else w)
    !! next_timer w = None.
Proof.
  intros HT. apply eq_None_not_Some. intros [t Hl].
  assert (timers w !! next_timer w = Some t) as Hl'.
  { destruct (handle_set _); simpl in Hl; [|done].
    by apply lookup_delete_Some in Hl as [_ ?]. }
  destruct (inv_timers_lt _ HT _ _ Hl'). lia.
Qed.

(** The close event of a socket, and what it schedules. *)
Lemma close_event_schedule s code w sock :
  TimerInv w -> sockets w !! s = Some sock -> close_fired sock = false ->
  scheduled_reconnect w (step (EvClose s code) w) =
    if negb (code =? 1000) && negb (reconnect_pending w) && bool_decide (wsRef w = Some s)
    then Some (if code =? 4000 then 1000 else 5000)
    else None.
Proof.
  intros HT Hl Hf. rewrite (reconnect_pending_ref _ HT).
  pose proof (stop_heartbeat_fresh w HT) as Hfresh.
  unfold scheduled_reconnect. simpl. rewrite Hl, Hf.
  unfold onclose, setTimeout. simpl.
  destruct (handle_set (heartbeatTimer w)); simpl in *;
    destruct (negb (code =? 1000)); simpl; try (by rewrite Hfresh);
    destruct (handle_set (reconnectTimeout w)); simpl; try (by rewrite Hfresh);
    case_bool_decide; simpl; by rewrite ?lookup_insert_eq, ?Hfresh.
Qed.

(** C5: after the close event of a socket a reconnect is scheduled exactly
    when the close code is not 1000, no reconnect is pending and the socket
    is still the current one; its delay is 1000 ms after the watchdog's code
    4000 and 5000 ms after any other; after code 1000 none is scheduled. *)
Theorem close_schedules_reconnect s code w sock :
  reachable w -> sockets w !! s = Some sock -> close_fired sock = false ->
  scheduled_reconnect w (step (EvClose s code) w) =
    if negb (code =? 1000) && negb (reconnect_pending w) && bool_decide (wsRef w = Some s)
    then Some (if code =? 4000 then 1000 else 5000)
    else None.
Proof.
  intros Hr. apply close_event_schedule. by apply invariants_reachable.
Qed.

Lemma heartbeat_timers_reset w :
  TimerInv w ->
  heartbeat_timers (resetHeartbeatTimer w) =
    {[ next_timer w := mkTimer HeartbeatExpired HEARTBEAT_TIMEOUT_MS ]}.
Proof.
  intros HT. unfold heartbeat_timers, resetHeartbeatTimer, setTimeout. cbv zeta.
  pose proof (fun h t => stop_heartbeat_none w h t HT) as Hnone.
  assert (next_timer (if handle_set (heartbeatTimer w)
                      then clearTimeout (default 0%nat (heartbeatTimer w)) w else w)
          = next_timer w) as En by (by destruct (handle_set _)).
  simpl. rewrite En.
  apply map_eq. intros h. destruct (decide (h = next_timer w)) as [->|Hne].
  - rewrite lookup_singleton_eq. apply map_lookup_filter_Some.
    by rewrite lookup_insert_eq.
  - rewrite lookup_singleton_ne by done. apply map_lookup_filter_None. right.
    intros t. rewrite lookup_insert_ne by done. intros Hl Hk.
    apply Hnone in Hl. simpl in Hk. congruence.
Qed.



(** ** At most one connecting or open socket *)

Lemma filter_live_nil (l : list Socket) :
  (forall i x, l !! i = Some x -> live x = false) -> List.filter live l = [].
Proof.
  induction l as [|x l IH]; [done|]. intros Hall. simpl.
  rewrite (Hall 0%nat x) by done. apply IH. intros i y Hl. by apply (Hall (S i)).
Qed.

Lemma filter_live_one (l : list Socket) k :
  (forall i x, l !! i = Some x -> i <> k -> live x = false) ->
  (length (List.filter live l) <= 1)%nat.
Proof.
  revert k. induction l as [|x l IH]; intros k Hall; simpl; [lia|].
  destruct k as [|k].
  - rewrite (filter_live_nil l).
    + destruct (live x); simpl; lia.
    + intros i y Hl. by apply (Hall (S i)).
  - rewrite (Hall 0%nat x) by done. apply (IH k).
    intros i y Hl Hne. apply (Hall (S i)); [done|lia].
Qed.

Lemma filter_live_some (l : list Socket) i x :
  l !! i = Some x -> live x = true -> (1 <= length (List.filter live l))%nat.
Proof.
  revert i. induction l as [|y l IH]; intros i; [done|].
  destruct i as [|i]; simpl.
  - intros [= ->] ->. simpl. lia.
  - intros Hl Hx. destruct (live y); simpl; [lia|]. by eapply IH.
Qed.

Lemma live_sockets_at_most_one w : SocketInv w -> (length (live_sockets w) <= 1)%nat.
Proof.
  intros HI. unfold live_sockets. destruct (wsRef w) as [s|] eqn:Ew.
  - apply (filter_live_one _ s). intros i x Hl Hne.
    eapply inv_others; [done..|]. congruence.
  - rewrite filter_live_nil; [simpl; lia|]. intros i x Hl.
    eapply inv_others; [done..|]. congruence.
Qed.

Lemma connect_twice pid w : connect pid (connect pid w) = connect pid w.
Proof.
  destruct (connect_cases pid w) as [E|(Hp & _ & _ & _ & url & _ & _ & _ & Hc & _)];
    [by rewrite !E|].
  set (w' := connect pid w) in *. unfold connect at 1. by rewrite Hp, Hc.
Qed.

(** C7: [connect] called while the current socket is connecting or open
    changes nothing and makes no socket; in every reachable world at most
    one socket is connecting or open; and two calls in a row do what one
    does, leaving exactly one such socket where the first made one. *)
Theorem connect_single_socket :
  (forall pid w,
     ws_is CONNECTING w = true \/ ws_is OPEN w = true -> connect pid w = w) /\
  (forall w, reachable w -> (length (live_sockets w) <= 1)%nat) /\
  (forall pid w,
     reachable w ->
     connect pid (connect pid w) = connect pid w /\
     (connect pid w <> w -> length (live_sockets (connect pid (connect pid w))) = 1%nat)).
Proof.
  split_and!.
  - intros pid w Hlive. unfold connect.
    destruct (projectId_set pid); simpl; [|done].
    destruct Hlive as [->| ->]; [by rewrite orb_true_r|].
    by destruct (isConnectingRef w || ws_is CONNECTING w).
  - intros w [_ HI]%invariants_reachable. by apply live_sockets_at_most_one.
  - intros pid w Hr. split; [apply connect_twice|]. rewrite connect_twice. intros Hne.
    pose proof (reachable_step (EvMount pid) _ Hr) as Hr'. simpl in Hr'.
    pose proof (invariants_reachable _ Hr') as [_ HI'].
    pose proof (live_sockets_at_most_one _ HI').
    destruct (connect_cases pid w) as [?|(_ & _ & _ & _ & url & Hs & _)]; [done|].
    assert (sockets (connect pid w) !! length (sockets w) =
            Some (mkSocket url CONNECTING None [] (default "" pid) false)) as Hl.
    { rewrite Hs. apply list_lookup_middle.
      destruct (wsRef w); by rewrite ?length_alter. }
    pose proof (filter_live_some _ _ _ Hl eq_refl). unfold live_sockets in *. lia.
Qed.

(** ** Sending a turn *)


(** ** The two views of the steps *)

Lemma has_string set k : has set (VString k) = bool_decide (k ∈ set).
Proof. reflexivity. Qed.

Lemma views_disjoint (v : JsValue) :
  has ACTIVITY_TYPES v = true -> has DIALOG_TYPES v = false.
Proof.
  destruct v; try done. rewrite !has_string.
  intros Ha%bool_decide_eq_true. apply bool_decide_eq_false.
  unfold ACTIVITY_TYPES, DIALOG_TYPES in *. set_unfold.
  intros Hd. destruct_or!; subst; discriminate.
Qed.

Lemma views_of_kind k :
  k ∈ STEP_KINDS ->
  has ACTIVITY_TYPES (VString k) = negb (String.eqb k "llm_text") /\
  has DIALOG_TYPES (VString k) = String.eqb k "llm_text".
Proof.
  unfold STEP_KINDS. set_unfold. intros Hk. destruct_or!; subst; by vm_compute.
Qed.

Lemma filter_partition {A} (p q : A -> bool) (l : list A) :
  Forall (fun x => p x = negb (q x)) l ->
  Permutation l (List.filter p l ++ List.filter q l).
Proof.
  induction 1 as [|x l Hx _ IH]; [done|]. simpl. rewrite Hx.
  destruct (q x); simpl.
  - by apply Permutation_cons_app.
  - by apply Permutation_cons.
Qed.

(** C3: no step is in both views; a step of one of the four kinds is in
    exactly one of them, the dialogue view for [llm_text] and the activity
    view for the other three; and over a history of such steps the two
    views together hold every step once.  Both views are functions of the
    steps alone. *)
Theorem views_partition (steps : list Step) :
  (forall s, s ∈ activitySteps steps -> s ∉ dialogSteps steps) /\
  (forall s k,
     s ∈ steps -> step_type s = VString k -> k ∈ STEP_KINDS ->
     (s ∈ activitySteps steps <-> k <> "llm_text") /\
     (s ∈ dialogSteps steps <-> k = "llm_text")) /\
  (Forall (fun s => exists k, step_type s = VString k /\ k ∈ STEP_KINDS) steps ->
     Permutation steps (activitySteps steps ++ dialogSteps steps)).
Proof.
  unfold activitySteps, dialogSteps. split_and!.
  - intros s. rewrite !list_elem_of_In, !filter_In.
    intros [_ Ha] [_ Hd]. apply views_disjoint in Ha. congruence.
  - intros s k Hin Hk Hkind. rewrite !list_elem_of_In, !filter_In, Hk.
    destruct (views_of_kind k Hkind) as [-> ->].
    apply list_elem_of_In in Hin.
    destruct (String.eqb_spec k "llm_text"); simpl; intuition congruence.
  - intros Hall. apply filter_partition.
    eapply Forall_impl; [done|]. intros s (k & -> & Hk).
    destruct (views_of_kind k Hk) as [-> ->]. done.
Qed.

(** * Further properties of the session layer *)

(** ** The handler, field by field *)

#[local] Opaque resetHeartbeatTimer.

(** Case analysis on what is left of the handler once the type is known. *)
Ltac handler_cases :=
  repeat (simpl;
    match goal with
    | |- context [match js_or ?c (VString "") with _ => _ end] =>
        destruct (js_or c (VString ""))
    | |- context [match js_to_string ?v with _ => _ end] =>
        destruct (js_to_string v)
    | |- context [is_str ?a ?b] => destruct (is_str a b)
    end);
  simpl; rewrite ?store_resetHeartbeatTimer.

(** The chat history after a message: only the three terminal messages add
    to it. *)
Lemma deliver_messages now data w :
  messages (store (deliver now data w)) =
    messages (store w) ++
      match terminal_message data with
      | Some m => [mkChatMessage m now now]
      | None => []
      end.
Proof.
  destruct data;
    try (rewrite deliver_not_object by (intros ? [=]); simpl; by rewrite app_nil_r).
  unfold terminal_message. rewrite !field_object.
  destruct (type_cases (default VUndefined (props !! "type"))) as [(lit & Hlit & Hty)|Hty].
  - handler. rewrite Hty.
    known_type Hlit; handler_cases; by rewrite ?app_nil_r.
  - rewrite deliver_unknown_store by done. unknown_type Hty. by rewrite app_nil_r.
Qed.

Lemma deliver_steps now data w :
  agentSteps (store (deliver now data w)) =
    agentSteps (store w) ++ option_list (recorded_step data).
Proof.
  destruct data;
    try (rewrite deliver_not_object by (intros ? [=]); simpl; by rewrite app_nil_r).
  unfold recorded_step. rewrite !field_object.
  destruct (type_cases (default VUndefined (props !! "type"))) as [(lit & Hlit & Hty)|Hty].
  - handler. rewrite Hty.
    known_type Hlit; handler_cases; by rewrite ?app_nil_r.
  - rewrite deliver_unknown_store by done. unknown_type Hty. by rewrite app_nil_r.
Qed.

Lemma deliver_ports now data w :
  projectPorts (store (deliver now data w)) =
    default (projectPorts (store w)) (published_ports data).
Proof.
  destruct data;
    try (rewrite deliver_not_object by (intros ? [=]); reflexivity).
  unfold published_ports. rewrite !field_object.
  destruct (type_cases (default VUndefined (props !! "type"))) as [(lit & Hlit & Hty)|Hty].
  - handler. rewrite Hty.
    known_type Hlit; handler_cases; done.
  - rewrite deliver_unknown_store by done. unknown_type Hty. done.
Qed.

Lemma content_fits_text props :
  default VUndefined (props !! "type") = VString "agent_step" ->
  content_fits (VObject props) = true ->
  js_or (default VUndefined (props !! "content")) (VString "") =
    VString (content_text (VObject props)).
Proof.
  unfold content_fits, content_text. rewrite !field_object. intros ->. simpl. unfold js_or.
  destruct (default VUndefined (props !! "content")) as [| |[]| |s| |] eqn:E; simpl; try done.
  - by destruct (number_truthy n).
  - by destruct (String.eqb_spec s "") as [->|].
Qed.

Lemma deliver_live now data w :
  content_fits data = true ->
  liveAssistantContent (store (deliver now data w)) =
    live_after data (liveAssistantContent (store w)).
Proof.
  intros Hfit. unfold live_after.
  destruct data;
    try (rewrite deliver_not_object by (intros ? [=]); reflexivity).
  unfold terminal_message, live_text. rewrite !field_object.
  destruct (type_cases (default VUndefined (props !! "type"))) as [(lit & Hlit & Hty)|Hty].
  - handler. rewrite Hty.
    known_type Hlit; simpl; rewrite ?store_resetHeartbeatTimer; try done.
    + rewrite (content_fits_text _ Hty Hfit).
      handler_cases; by rewrite ?str_or_empty.
    + rewrite js_or_idem. by destruct (content_fits_chunk _ Hty Hfit) as [t ->].
  - rewrite deliver_unknown_store by done. unknown_type Hty. done.
Qed.

(** X1: after a message whose content the handler can take, the live text
    is the trimmed content of a [thinking] step (the placeholder where that
    is empty), the trimmed content of an [llm_text] step, empty after a
    terminal message and unchanged otherwise; the streamed text is extended
    by a chunk, emptied by a terminal message and unchanged otherwise. *)
Theorem buffers_after_message now data w :
  content_fits data = true ->
  liveAssistantContent (store (deliver now data w)) =
    live_after data (liveAssistantContent (store w)) /\
  streamingContent (store (deliver now data w)) =
    streaming_after data (streamingContent (store w)).
Proof.
  intros Hfit. split; [by apply deliver_live|].
  unfold streaming_after. destruct (is_chunk data) eqn:Hchunk; [by apply deliver_chunk|].
  unfold is_chunk in Hchunk.
  destruct data;
    try (rewrite deliver_not_object by (intros ? [=]); reflexivity).
  unfold terminal_message. rewrite !field_object in *.
  destruct (type_cases (default VUndefined (props !! "type"))) as [(lit & Hlit & Hty)|Hty].
  - handler. rewrite Hty in *.
    known_type Hlit; simpl; rewrite ?store_resetHeartbeatTimer; try done.
    rewrite (content_fits_text _ Hty Hfit).
    handler_cases; done.
  - rewrite deliver_unknown_store by done. unknown_type Hty. done.
Qed.

(** X2: a message whose content the handler cannot take is logged as a
    [TypeError] by [ws.onmessage]; an [agent_step] has been appended to the
    steps by then and stays there, and nothing else in the store changes; a
    stream chunk leaves the store as it was. *)
Theorem rejected_content now data w :
  content_fits data = false ->
  store (deliver now data w) =
    match recorded_step data with
    | Some st => addAgentStep st (store w)
    | None => store w
    end /\
  console (deliver now data w) = console w ++ [ErrorParse TypeError].
Proof.
  unfold content_fits, recorded_step. intros Hfit.
  destruct (is_str (field data "type") "agent_step") eqn:Hstep.
  - destruct (field_type_object _ _ Hstep) as [props ->].
    rewrite !field_object in *. apply is_str_true in Hstep.
    apply orb_false_iff in Hfit as [Ht%negb_false_iff Hs].
    handler. rewrite Hstep. simpl.
    rewrite (js_or_truthy (default VUndefined (props !! "content"))) by done.
    destruct (default VUndefined (props !! "content")); try done;
      simpl; by rewrite store_resetHeartbeatTimer, console_resetHeartbeatTimer.
  - destruct (is_str (field data "type") "agent_stream_chunk") eqn:Hchunk; [|done].
    destruct (field_type_object _ _ Hchunk) as [props ->].
    rewrite !field_object in *. apply is_str_true in Hchunk.
    apply bool_decide_eq_false in Hfit.
    assert (js_to_string (default VUndefined (props !! "content")) = None) as Hnone
      by (destruct (js_to_string _); [by destruct Hfit|done]).
    assert (truthy (default VUndefined (props !! "content")) = true) as Ht
      by (by destruct (default VUndefined (props !! "content")) as [| |[]| | | |]).
    handler. rewrite Hchunk. simpl. rewrite js_or_idem, js_or_truthy, Hnone by done.
    simpl. by rewrite store_resetHeartbeatTimer, console_resetHeartbeatTimer.
Qed.

(** X3: a [heartbeat] and a [user_message] restart the watchdog and do
    nothing else: store, console, sockets and refs are as they were. *)
Theorem heartbeat_only_resets_watchdog now data w :
  is_str (field data "type") "heartbeat" = true \/
  is_str (field data "type") "user_message" = true ->
  deliver now data w = resetHeartbeatTimer w.
Proof.
  intros [Hty|Hty]; destruct (field_type_object _ _ Hty) as [props ->];
    rewrite !field_object in *; apply is_str_true in Hty;
    handler; by rewrite Hty.
Qed.

(** ** The store along the event loop *)

Lemma store_connect pid w : store (connect pid w) = store w.
Proof.
  destruct (connect_cases pid w) as [->|(_ & _ & _ & _ & url & _ & _ & E & _)]; done.
Qed.

Lemma store_onclose pid s code w : store (onclose pid s code w) = setWs None (store w).
Proof.
  unfold onclose, setTimeout. cbv zeta.
  destruct (_ && _ && _); by destruct (handle_set (heartbeatTimer _)).
Qed.

Lemma store_heartbeat_expired w : store (heartbeat_expired w) = store w.
Proof. unfold heartbeat_expired. cbv zeta. by destruct (ws_is OPEN _). Qed.

Lemma store_sendMessage now message imgs files w :
  store (sendMessage now message imgs files w).1 = store w \/
  store (sendMessage now message imgs files w).1 =
    setAgentStatus "thinking" (set_agentSteps [] (set_streamingContent ""
      (addMessage now (mkNewMessage "user" (VString message) imgs files) (store w)))).
Proof.
  unfold sendMessage, ws_send, bind, update_store, modify.
  destruct (ws (store w)) as [s|]; [|by left].
  destruct (wsConnected (store w)); [|by left].
  destruct (readyState <$> sockets w !! s) as [[]|]; simpl; auto.
Qed.

Lemma store_stopAgent w :
  store (stopAgent w).1 = store w \/
  store (stopAgent w).1 = setAgentStatus "idle" (store w).
Proof.
  unfold stopAgent, ws_send, bind, update_store, modify.
  destruct (ws (store w)) as [s|]; [|by left].
  destruct (wsConnected (store w)); [|by left].
  destruct (readyState <$> sockets w !! s) as [[]|]; simpl; auto.
Qed.

(** What one event can do to the store. *)
Lemma store_step ev w :
  store (step ev w) = store w \/
  (exists sock, store (step ev w) = setWs sock (store w)) \/
  (exists now data, store (step ev w) = store (deliver now data w)) \/
  (exists now m,
     role m = "user" /\
     store (step ev w) =
       setAgentStatus "thinking" (set_agentSteps [] (set_streamingContent ""
         (addMessage now m (store w))))) \/
  store (step ev w) = setAgentStatus "idle" (store w).
Proof.
  destruct ev; simpl.
  - left. apply store_connect.
  - left. by destruct (cleanup_fields w) as (_ & _ & E & _).
  - destruct (sockets w !! s) as [sock|]; [|by left].
    destruct (readyState sock); try by left.
    right; left. exists (Some s). unfold onopen. simpl.
    by rewrite store_resetHeartbeatTimer.
  - destruct (sockets w !! s) as [sock|]; [|by left].
    destruct (readyState sock); try by left.
    destruct (onmessage_cases now event_data w) as [(data & _ & ->)|[_ ->]]; [|by left].
    right; right; left. eauto.
  - destruct (sockets w !! s) as [sock|]; [|by left].
    destruct (close_fired sock); by left.
  - destruct (sockets w !! s) as [sock|]; [|by left].
    destruct (close_fired sock); [by left|].
    right; left. exists None. by rewrite store_onclose.
  - destruct (timers w !! handle) as [t|]; [|by left].
    destruct (callback t); left.
    + by rewrite store_heartbeat_expired.
    + unfold reconnect_fired. by rewrite store_connect.
  - destruct (store_sendMessage now message imgs files w) as [E|E]; [by left|].
    right; right; right; left.
    by exists now, (mkNewMessage "user" (VString message) imgs files).
  - destruct (store_stopAgent w) as [E|E]; [by left|by do 4 right].
Qed.

Lemma table_status_range data s : table_status data = Some s -> s ∈ STATUSES.
Proof.
  unfold table_status, STATUSES.
  repeat match goal with
  | |- context [if ?b then _ else _] => destruct b
  end; intros [= <-]; set_solver.
Qed.

Lemma deliver_status_cases now data w :
  agentStatus (store (deliver now data w)) = agentStatus (store w) \/
  agentStatus (store (deliver now data w)) ∈ STATUSES.
Proof.
  destruct (content_fits data) eqn:Hfit.
  - rewrite deliver_status by done.
    destruct (table_status data) as [s|] eqn:E; [right|by left].
    by eapply table_status_range.
  - left. by apply deliver_status_rejected.
Qed.

Lemma wsConnected_reachable w :
  reachable w -> wsConnected (store w) = bool_decide (is_Some (ws (store w))).
Proof.
  intros [evs ->]. induction evs as [|ev evs IH] using rev_ind; [done|].
  rewrite run_snoc.
  destruct (store_step ev (run evs initial_world))
    as [-> | [[sock ->] | [(now & data & ->) | [(now & m & _ & ->) | ->]]]]; simpl; try done.
  destruct (deliver_same_hook now data (run evs initial_world))
    as (_ & _ & _ & _ & _ & _ & _ & -> & ->).
  by rewrite store_resetHeartbeatTimer.
Qed.

(** X4: in every reachable world the status is one of [idle], [thinking],
    [working], [done] and [error]. *)
Theorem status_in_range w : reachable w -> agentStatus (store w) ∈ STATUSES.
Proof.
  intros [evs ->]. induction evs as [|ev evs IH] using rev_ind.
  - unfold STATUSES. simpl. set_solver.
  - rewrite run_snoc.
    destruct (store_step ev (run evs initial_world))
      as [-> | [[sock ->] | [(now & data & ->) | [(now & m & _ & ->) | ->]]]]; simpl; try done.
    by destruct (deliver_status_cases now data (run evs initial_world)) as [->|?].
Qed.

(** X5: in every reachable world [wsConnected] is true exactly when the
    store holds a socket, so the store's test [ws && wsConnected] and the
    flag agree; and the socket the store holds has left the connecting
    state. *)
Theorem wsConnected_iff_ws w :
  reachable w ->
  wsConnected (store w) = bool_decide (is_Some (ws (store w))) /\
  connection_open (store w) = wsConnected (store w) /\
  (forall s, ws (store w) = Some s ->
     exists sock, sockets w !! s = Some sock /\ readyState sock <> CONNECTING).
Proof.
  intros Hr. pose proof (wsConnected_reachable w Hr) as E. split_and!; [done| |].
  - unfold connection_open. rewrite E. by destruct (ws (store w)).
  - destruct (invariants_reachable w Hr) as [_ HI]. apply (inv_store_ws _ HI).
Qed.

(** X6: no event of the loop removes or rewrites a chat message: the
    history before any run of events is a prefix of the history after. *)
Theorem history_append_only evs w :
  messages (store w) `prefix_of` messages (store (run evs w)).
Proof.
  induction evs as [|ev evs IH] using rev_ind; [done|].
  rewrite run_snoc. etransitivity; [exact IH|].
  destruct (store_step ev (run evs w))
    as [-> | [[sock ->] | [(now & data & ->) | [(now & m & _ & ->) | ->]]]]; simpl; try done.
  - rewrite deliver_messages. by apply prefix_app_r.
  - by apply prefix_app_r.
Qed.

Lemma deliver_all_snoc msgs m w :
  deliver_all (msgs ++ [m]) w = deliver m.1 m.2 (deliver_all msgs w).
Proof. unfold deliver_all. by rewrite foldl_snoc. Qed.

(** X7: a sequence of decoded messages adds to the history exactly its
    terminal messages, in order of arrival, each stamped with its arrival
    time; no other message adds anything. *)
Theorem history_of_messages msgs w :
  messages (store (deliver_all msgs w)) = messages (store w) ++ omap history_entry msgs.
Proof.
  induction msgs as [|m msgs IH] using rev_ind; [simpl; by rewrite app_nil_r|].
  rewrite deliver_all_snoc, deliver_messages, IH, omap_app, app_assoc. f_equal.
  unfold history_entry. simpl. by destruct (terminal_message m.2).
Qed.

(** X8: a sequence of decoded messages appends to the steps exactly its
    [agent_step] messages, in order of arrival and whatever their content;
    no other message touches the steps. *)
Theorem steps_of_messages msgs w :
  agentSteps (store (deliver_all msgs w)) =
    agentSteps (store w) ++ omap recorded_step msgs.*2.
Proof.
  induction msgs as [|m msgs IH] using rev_ind; [simpl; by rewrite app_nil_r|].
  rewrite deliver_all_snoc, deliver_steps, IH, fmap_app, omap_app, app_assoc.
  by f_equal.
Qed.

(** X9: after a sequence of decoded messages the published ports are
    those of its last [connected] or [ports_update] message, the empty
    object where that message carried none, and the ports from before where
    there was no such message. *)
Theorem ports_of_messages msgs w :
  projectPorts (store (deliver_all msgs w)) =
    default (projectPorts (store w)) (last (omap published_ports msgs.*2)).
Proof.
  induction msgs as [|m msgs IH] using rev_ind; [done|].
  rewrite deliver_all_snoc, deliver_ports, IH, fmap_app, omap_app. simpl.
  destruct (published_ports m.2) as [p|]; simpl.
  - by rewrite last_snoc.
  - by rewrite app_nil_r.
Qed.

(** What a message does to the store depends on the store alone. *)
Lemma deliver_store_alone now data w w' :
  store w = store w' -> store (deliver now data w) = store (deliver now data w').
Proof.
  intros E.
  destruct data;
    try (rewrite !deliver_not_object by (intros ? [=]); done).
  destruct (type_cases (default VUndefined (props !! "type"))) as [(lit & Hlit & Hty)|Hty].
  - handler. rewrite Hty.
    known_type Hlit; handler_cases; by rewrite ?store_resetHeartbeatTimer, ?E.
  - by rewrite !deliver_unknown_store.
Qed.

(** X10: what a sequence of decoded messages does to the store depends on
    the store before and on the messages only, not on the sockets, the
    timeouts, the refs or the console. *)
Theorem store_evolves_alone msgs w w' :
  store w = store w' -> store (deliver_all msgs w) = store (deliver_all msgs w').
Proof.
  revert w w'. induction msgs as [|m msgs IH]; intros w w' E; [done|].
  rewrite !deliver_all_cons. by apply IH, deliver_store_alone.
Qed.

#[local] Transparent resetHeartbeatTimer.

(** ** Timers *)

Lemma no_timers_left w :
  TimerInv w -> heartbeatTimer w = None -> reconnectTimeout w = None -> timers w = ∅.
Proof.
  intros HT Hh Hr. apply map_empty. intros h.
  destruct (timers w !! h) as [t|] eqn:Hl; [|done].
  destruct (is_reconnect t) eqn:Hk.
  - pose proof (inv_rc_only _ HT _ _ Hl Hk). congruence.
  - pose proof (inv_hb_only _ HT _ _ Hl Hk). congruence.
Qed.

Lemma size_le_1_same_key {A} (m : gmap nat A) (r : option nat) :
  (forall h t, m !! h = Some t -> r = Some h) -> (size m <= 1)%nat.
Proof.
  intros Hkey. destruct r as [h|].
  - destruct (m !! h) as [t|] eqn:Hl.
    + assert (m = {[ h := t ]}) as ->; [|by rewrite map_size_singleton].
      apply map_eq. intros h'. destruct (decide (h' = h)) as [->|Hne].
      * by rewrite lookup_singleton_eq.
      * rewrite lookup_singleton_ne by done.
        destruct (m !! h') as [t'|] eqn:Hl'; [|done].
        specialize (Hkey _ _ Hl'). congruence.
    + assert (m = ∅) as ->; [|by rewrite map_size_empty; lia].
      apply map_empty. intros h'.
      destruct (m !! h') as [t'|] eqn:Hl'; [|done].
      specialize (Hkey _ _ Hl'). congruence.
  - assert (m = ∅) as ->; [|by rewrite map_size_empty; lia].
    apply map_empty. intros h'.
    destruct (m !! h') as [t'|] eqn:Hl'; [|done].
    specialize (Hkey _ _ Hl'). congruence.
Qed.

(** X11: in every reachable world at most one watchdog timeout and at
    most one reconnect timeout are pending, and every pending timeout is the
    one whose handle [heartbeatTimer] or [reconnectTimeout] holds. *)
Theorem timers_never_pile_up w :
  reachable w ->
  (size (heartbeat_timers w) <= 1)%nat /\ (size (reconnect_timers w) <= 1)%nat /\
  (forall h t, timers w !! h = Some t ->
     heartbeatTimer w = Some h \/ reconnectTimeout w = Some h).
Proof.
  intros [HT _]%invariants_reachable. split_and!.
  - apply (size_le_1_same_key _ (heartbeatTimer w)).
    intros h t [Hl Hk]%map_lookup_filter_Some. by eapply inv_hb_only.
  - apply (size_le_1_same_key _ (reconnectTimeout w)).
    intros h t [Hl Hk]%map_lookup_filter_Some. by eapply inv_rc_only.
  - intros h t Hl. destruct (is_reconnect t) eqn:Hk.
    + right. by eapply inv_rc_only.
    + left. by eapply inv_hb_only.
Qed.

(** ** The effect's cleanup *)

Lemma cleanup_refs w :
  TimerInv w ->
  heartbeatTimer (cleanup w) = None /\ reconnectTimeout (cleanup w) = None /\
  isConnectingRef (cleanup w) = false.
Proof.
  intros HT. unfold cleanup. cbv zeta.
  destruct (TimerInv_hb _ HT) as [Eh|[h Eh]], (TimerInv_rc _ HT) as [Er|[r Er]];
    rewrite Eh; simpl; rewrite Er; simpl; by destruct (wsRef w).
Qed.

Lemma Unmounted_cleanup w : TimerInv w -> SocketInv w -> Unmounted (cleanup w).
Proof.
  intros HT HI.
  destruct (cleanup_refs w HT) as (Eh & Er & _).
  pose proof (SocketInv_cleanup w HT HI) as HI'.
  destruct (cleanup_fields w) as (_ & Ew & _).
  constructor.
  - done.
  - apply no_timers_left; [by apply TimerInv_cleanup|done..].
  - intros s sock Hl. eapply inv_others; [done..|]. by rewrite Ew.
Qed.

Lemma live_sockets_nil w :
  (forall s sock, sockets w !! s = Some sock -> live sock = false) -> live_sockets w = [].
Proof. apply filter_live_nil. Qed.

(** X12: the effect's cleanup leaves no timeout pending, clears the three
    refs, leaves no socket connecting or open, closes the current socket
    with code 1000 and does not touch the store. *)
Theorem cleanup_releases_everything w :
  reachable w ->
  timers (cleanup w) = ∅ /\
  heartbeatTimer (cleanup w) = None /\ reconnectTimeout (cleanup w) = None /\
  wsRef (cleanup w) = None /\ isConnectingRef (cleanup w) = false /\
  live_sockets (cleanup w) = [] /\
  store (cleanup w) = store w /\
  (forall s sock,
     wsRef w = Some s -> sockets w !! s = Some sock ->
     sockets (cleanup w) !! s = Some (close_socket (Some 1000) sock)).
Proof.
  intros [HT HI]%invariants_reachable.
  destruct (cleanup_refs w HT) as (Eh & Er & Ec).
  destruct (Unmounted_cleanup w HT HI) as [Ew Et El].
  destruct (cleanup_fields w) as (Es & _ & Est & _).
  split_and!; try done.
  - by apply live_sockets_nil.
  - intros s sock Hw Hl. rewrite Es, Hw. by rewrite list_lookup_alter_eq, Hl.
Qed.

Lemma live_enqueue payload sock : live (enqueue payload sock) = live sock.
Proof. done. Qed.

Lemma Unmounted_sent w w' :
  Unmounted w ->
  wsRef w' = wsRef w -> timers w' = timers w ->
  (sockets w' = sockets w \/
   exists s payload, sockets w' = alter (enqueue payload) s (sockets w)) ->
  Unmounted w'.
Proof.
  intros [Ew Et El] E1 E2 Es. constructor; [congruence..|].
  intros s sock. destruct Es as [->|(s0 & payload & ->)]; [apply El|].
  intros (sock0 & Hl & [[_ ->]|[_ ->]])%lookup_alter_Some; [by eapply El|].
  rewrite live_enqueue. by eapply El.
Qed.

Lemma timers_cleanup_empty w : timers w = ∅ -> timers (cleanup w) = ∅.
Proof.
  intros Et. unfold cleanup, ws_close, clearTimeout.
  destruct (handle_set (heartbeatTimer w)); simpl;
    destruct (handle_set (reconnectTimeout w)); simpl;
    destruct (wsRef w); simpl; rewrite Et, ?delete_empty; done.
Qed.

Lemma onclose_fields pid s code w :
  sockets (onclose pid s code w) = sockets w /\
  wsRef (onclose pid s code w) = wsRef w /\
  isConnectingRef (onclose pid s code w) = false /\
  heartbeatTimer (onclose pid s code w) = heartbeatTimer w /\
  (wsRef w <> Some s ->
     timers (onclose pid s code w) =
       (if handle_set (heartbeatTimer w)
        then delete (default 0%nat (heartbeatTimer w)) (timers w) else timers w) /\
     reconnectTimeout (onclose pid s code w) = reconnectTimeout w /\
     next_timer (onclose pid s code w) = next_timer w).
Proof.
  unfold onclose, setTimeout, clearTimeout. cbv zeta. simpl.
  destruct (handle_set (heartbeatTimer w)); simpl;
    destruct (negb (code =? 1000)); simpl;
    destruct (handle_set (reconnectTimeout w)); simpl;
    try case_bool_decide; simpl in *; split_and!; try done; intros Hne; try congruence; by split_and!.
Qed.

Lemma Unmounted_step ev w :
  is_mount ev = false -> Unmounted w ->
  Unmounted (step ev w) /\ length (sockets (step ev w)) = length (sockets w).
Proof.
  intros Hev [Ew Et El]. destruct ev; try discriminate; cbn [step].
  - destruct (cleanup_fields w) as (Es & Ew' & _). rewrite Ew in Es.
    split; [|by rewrite Es].
    constructor; [done|by apply timers_cleanup_empty|by rewrite Es].
  - destruct (sockets w !! s) as [sock|] eqn:Hl; [|done].
    pose proof (El _ _ Hl) as Hlive. unfold live in Hlive.
    by destruct (readyState sock).
  - destruct (sockets w !! s) as [sock|] eqn:Hl; [|done].
    pose proof (El _ _ Hl) as Hlive. unfold live in Hlive.
    by destruct (readyState sock).
  - destruct (sockets w !! s) as [sock|] eqn:Hl; [|done].
    destruct (close_fired sock); [done|].
    split; [|simpl; by rewrite length_alter].
    constructor; simpl; try done.
    intros s' sock' (sock0 & Hl0 & [[_ ->]|[_ ->]])%lookup_alter_Some; [by eapply El|done].
  - destruct (sockets w !! s) as [sock|] eqn:Hl; [|done].
    destruct (close_fired sock); [done|].
    destruct (onclose_fields (opened_for sock) s code (with_sockets (alter mark_closed s) w))
      as (Es & Ew' & _ & _ & Hrest).
    destruct Hrest as (Et' & _); [simpl; by rewrite Ew|].
    simpl in *. split; [|by rewrite Es, length_alter].
    constructor.
    + by rewrite Ew'.
    + rewrite Et', Et. destruct (handle_set _); by rewrite ?delete_empty.
    + intros s' sock'. rewrite Es.
      intros (sock0 & Hl0 & [[_ ->]|[_ ->]])%lookup_alter_Some; [by eapply El|done].
  - by rewrite Et, lookup_empty.
  - destruct (sendMessage_frame now message imgs files w) as (?&?&?&?&?&?&?&Hs).
    split; [by eapply Unmounted_sent|].
    destruct Hs as [->|(s & payload & ->)]; by rewrite ?length_alter.
  - destruct (stopAgent_frame w) as (?&?&?&?&?&?&?&Hs).
    split; [by eapply Unmounted_sent|].
    destruct Hs as [->|(s & payload & ->)]; by rewrite ?length_alter.
Qed.

(** X13: after the cleanup, whatever events follow short of the effect
    running again, no timeout is ever pending, no socket is made and none is
    connecting or open. *)
Theorem unmounted_stays_quiet w evs :
  reachable w -> Forall (fun ev => is_mount ev = false) evs ->
  timers (run evs (cleanup w)) = ∅ /\
  wsRef (run evs (cleanup w)) = None /\
  live_sockets (run evs (cleanup w)) = [] /\
  length (sockets (run evs (cleanup w))) = length (sockets w).
Proof.
  intros [HT HI]%invariants_reachable Hevs.
  assert (Unmounted (run evs (cleanup w)) /\
          length (sockets (run evs (cleanup w))) = length (sockets w)) as [[Ew Et El] Elen].
  { induction evs as [|ev evs IH] using rev_ind.
    - split; [by apply Unmounted_cleanup|].
      destruct (cleanup_fields w) as (Es & _).
      change (run [] (cleanup w)) with (cleanup w). rewrite Es.
      destruct (wsRef w); by rewrite ?length_alter.
    - apply Forall_app in Hevs as [Hevs Hev%Forall_inv].
      rewrite run_snoc. destruct (IH Hevs) as [IH1 IH2].
      destruct (Unmounted_step ev _ Hev IH1) as [? ?]. split; [done|congruence]. }
  split_and!; try done. by apply live_sockets_nil.
Qed.

(** ** Sockets and their projects *)

Lemma same_projects_refl l : same_projects l l.
Proof. induction l; by constructor. Qed.

Lemma same_projects_alter f s l :
  (forall sock, opened_for (f sock) = opened_for sock /\ url (f sock) = url sock) ->
  same_projects l (alter f s l).
Proof.
  intros Hf. revert s. induction l as [|x l IH]; intros [|s]; simpl.
  - constructor.
  - constructor.
  - constructor; [apply Hf|apply same_projects_refl].
  - constructor; [done|apply IH].
Qed.

Lemma same_projects_close code s l : same_projects l (alter (close_socket code) s l).
Proof.
  apply same_projects_alter. intros sock. unfold close_socket.
  by destruct (readyState sock).
Qed.

Lemma same_projects_sent l l' :
  l' = l \/ (exists s payload, l' = alter (enqueue payload) s l) -> same_projects l l'.
Proof.
  intros [->|(s & payload & ->)]; [apply same_projects_refl|].
  by apply same_projects_alter.
Qed.

Lemma ProjectInv_initial : ProjectInv initial_world.
Proof. constructor; simpl; intros; by simplify_map_eq. Qed.

(** An event that makes no socket and leaves the current one current. *)
Lemma ProjectInv_evolve w w' :
  ProjectInv w ->
  same_projects (sockets w) (sockets w') ->
  wsRef w' = wsRef w ->
  (forall h t pid,
     timers w' !! h = Some t -> callback t = Reconnect pid ->
     timers w !! h = Some t \/
     exists s sock, wsRef w' = Some s /\ sockets w' !! s = Some sock /\ opened_for sock = pid) ->
  (forall h, reconnectTimeout w' = Some h -> isConnectingRef w' = false) ->
  ProjectInv w'.
Proof.
  intros [P1 P2 P3] Hs Hw Ht Hr. constructor; [| |done].
  - intros s sock' Hl.
    destruct (Forall2_lookup_r _ _ _ _ _ Hs Hl) as (sock & Hl0 & -> & ->).
    by eapply P1.
  - intros h t pid Hl Hcb. destruct (Ht _ _ _ Hl Hcb) as [Hold|?]; [|done].
    destruct (P2 _ _ _ Hold Hcb) as (s & sock & Hws & Hl0 & Hpid).
    destruct (Forall2_lookup_l _ _ _ _ _ Hs Hl0) as (sock' & Hl' & Hp & _).
    exists s, sock'. rewrite Hw. split_and!; congruence.
Qed.

(** An event after which no reconnect is pending. *)
Lemma ProjectInv_rewire w w' :
  ProjectInv w -> TimerInv w' -> reconnectTimeout w' = None ->
  (forall s sock',
     sockets w' !! s = Some sock' ->
     (exists sock, sockets w !! s = Some sock /\
        opened_for sock' = opened_for sock /\ url sock' = url sock) \/
     (opened_for sock' <> "" /\ url sock' = wsUrl_of (opened_for sock'))) ->
  ProjectInv w'.
Proof.
  intros [P1 P2 P3] HT Hr Hs. constructor.
  - intros s sock' Hl. destruct (Hs _ _ Hl) as [(sock & Hl0 & -> & ->)|?]; [|done].
    by eapply P1.
  - intros h t pid Hl Hcb.
    assert (is_reconnect t = true) as Hk by (unfold is_reconnect; by rewrite Hcb).
    pose proof (inv_rc_only _ HT _ _ Hl Hk). congruence.
  - intros h. by rewrite Hr.
Qed.

Lemma connect_made pid w :
  connect pid w = w \/
  (projectId_set pid = true /\
   sockets (connect pid w) =
     match wsRef w with
     | Some s => alter (close_socket None) s (sockets w)
     | None => sockets w
     end ++ [mkSocket (wsUrl_of (default "" pid)) CONNECTING None [] (default "" pid) false]).
Proof.
  unfold connect, new_WebSocket, ws_close.
  destruct (projectId_set pid); simpl; [|by left].
  destruct (isConnectingRef w); simpl; [by left|].
  destruct (ws_is CONNECTING w); simpl; [by left|].
  destruct (ws_is OPEN w); simpl; [by left|].
  right. split; [done|].
  destruct (wsRef w) as [s|]; destruct (handle_set (reconnectTimeout w)) eqn:E; simpl;
    rewrite ?E; done.
Qed.

Lemma ProjectInv_connect pid w : TimerInv w -> ProjectInv w -> ProjectInv (connect pid w).
Proof.
  intros HT HP.
  destruct (connect_cases pid w)
    as [->|(_ & _ & _ & _ & url & _ & _ & _ & _ & _ & _ & Hr1 & Hr2)]; [done|].
  destruct (connect_made pid w) as [->|[Hp Hs]]; [done|].
  apply (ProjectInv_rewire w); [done|by apply TimerInv_connect| |].
  - destruct (handle_set (reconnectTimeout w)) eqn:E; [by apply Hr1|].
    rewrite Hr2 by done. by apply TimerInv_rc_unset.
  - intros s sock'. rewrite Hs. intros [Hl|[_ Hl]]%lookup_app_Some.
    + left. assert (same_projects (sockets w)
                      match wsRef w with
                      | Some s => alter (close_socket None) s (sockets w)
                      | None => sockets w
                      end) as Hsame
        by (destruct (wsRef w); [apply same_projects_close|apply same_projects_refl]).
      destruct (Forall2_lookup_r _ _ _ _ _ Hsame Hl) as (sock & Hl0 & ? & ?). eauto.
    + right. apply list_lookup_singleton_Some in Hl as [_ <-]. simpl.
      split; [|done]. destruct pid as [p|]; [|done]. simpl in *.
      intros ->. done.
Qed.

Lemma ProjectInv_cleanup w : TimerInv w -> ProjectInv w -> ProjectInv (cleanup w).
Proof.
  intros HT HP. destruct (cleanup_refs w HT) as (_ & Er & _).
  destruct (cleanup_fields w) as (Es & _).
  apply (ProjectInv_rewire w); [done|by apply TimerInv_cleanup|done|].
  intros s sock' Hl. left. rewrite Es in Hl.
  assert (same_projects (sockets w)
            match wsRef w with
            | Some s => alter (close_socket (Some 1000)) s (sockets w)
            | None => sockets w
            end) as Hsame
    by (destruct (wsRef w); [apply same_projects_close|apply same_projects_refl]).
  destruct (Forall2_lookup_r _ _ _ _ _ Hsame Hl) as (sock & Hl0 & ? & ?). eauto.
Qed.

Lemma resetHeartbeatTimer_fields w :
  sockets (resetHeartbeatTimer w) = sockets w /\
  wsRef (resetHeartbeatTimer w) = wsRef w /\
  reconnectTimeout (resetHeartbeatTimer w) = reconnectTimeout w /\
  isConnectingRef (resetHeartbeatTimer w) = isConnectingRef w /\
  (forall h t pid,
     timers (resetHeartbeatTimer w) !! h = Some t -> callback t = Reconnect pid ->
     timers w !! h = Some t).
Proof.
  unfold resetHeartbeatTimer, setTimeout, clearTimeout.
  destruct (handle_set (heartbeatTimer w)); simpl; split_and!; try done;
    intros h t pid [[_ <-]|[_ Hl]]%lookup_insert_Some Hcb; try done.
  by apply lookup_delete_Some in Hl as [_ ?].
Qed.

Lemma ProjectInv_resetHeartbeatTimer w : ProjectInv w -> ProjectInv (resetHeartbeatTimer w).
Proof.
  intros HP. destruct (resetHeartbeatTimer_fields w) as (Es & Ew & Er & Ec & Ht).
  apply (ProjectInv_evolve w); [done| |done| |].
  - rewrite Es. apply same_projects_refl.
  - intros h t pid Hl Hcb. left. by eapply Ht.
  - intros h. rewrite Er, Ec. by apply inv_rc_idle.
Qed.

Lemma ProjectInv_same_hook w w' : same_hook w w' -> ProjectInv w -> ProjectInv w'.
Proof.
  intros (Ew & Er & Ec & _ & Es & Et & _) HP.
  apply (ProjectInv_evolve w); [done| |done| |].
  - rewrite Es. apply same_projects_refl.
  - intros h t pid Hl Hcb. left. by rewrite <- Et.
  - intros h. rewrite Er, Ec. by apply inv_rc_idle.
Qed.

Lemma onclose_timers pid s code w h t :
  timers (onclose pid s code w) !! h = Some t ->
  timers w !! h = Some t \/ (callback t = Reconnect pid /\ wsRef w = Some s).
Proof.
  unfold onclose, setTimeout, clearTimeout. cbv zeta. simpl.
  destruct (handle_set (heartbeatTimer w)); simpl;
    destruct (negb (code =? 1000)); simpl;
    destruct (handle_set (reconnectTimeout w)); simpl;
    try case_bool_decide; simpl;
    rewrite ?lookup_insert_Some, ?lookup_delete_Some;
    intros Hl; intuition (subst; simpl; auto).
Qed.

Lemma onopen_fields s w :
  sockets (onopen s w) = sockets w /\
  wsRef (onopen s w) = wsRef w /\
  reconnectTimeout (onopen s w) = reconnectTimeout w /\
  isConnectingRef (onopen s w) = false /\
  store (onopen s w) = setWs (Some s) (store w) /\
  (forall h t pid,
     timers (onopen s w) !! h = Some t -> callback t = Reconnect pid ->
     timers w !! h = Some t).
Proof.
  unfold onopen. cbv zeta. unfold with_store.
  cbn [sockets wsRef reconnectTimeout isConnectingRef store timers].
  set (x := with_isConnectingRef false (log LogWsConnected w)).
  destruct (resetHeartbeatTimer_fields x) as (Es & Ew & Er & Ec & Ht).
  rewrite Es, Ew, Er, Ec, store_resetHeartbeatTimer. by split_and!.
Qed.

Lemma ProjectInv_step ev w :
  TimerInv w -> SocketInv w -> ProjectInv w -> ProjectInv (step ev w).
Proof.
  intros HT HI HP. destruct ev; cbn [step].
  - by apply ProjectInv_connect.
  - by apply ProjectInv_cleanup.
  - destruct (sockets w !! s) as [sock|] eqn:Hl; [|done].
    destruct (readyState sock); try done.
    destruct (onopen_fields s (with_sockets (alter (set_readyState OPEN) s) w))
      as (Es & Ew & Er & Ec & _ & Ht).
    apply (ProjectInv_evolve w); try done.
    + rewrite Es. by apply same_projects_alter.
    + intros h t pid Hlt Hcb. left. by apply (Ht h t pid).
  - destruct (sockets w !! s) as [sock|] eqn:Hl; [|done].
    destruct (readyState sock); try done.
    destruct (onmessage_cases now event_data w) as [(data & _ & ->)|[_ ->]].
    + eapply ProjectInv_same_hook; [apply deliver_same_hook|].
      by apply ProjectInv_resetHeartbeatTimer.
    + apply (ProjectInv_evolve w); simpl; try done.
      * apply same_projects_refl.
      * intros h t pid Hlt _. by left.
      * by apply inv_rc_idle.
  - destruct (sockets w !! s) as [sock|] eqn:Hl; [|done].
    destruct (close_fired sock); [done|].
    apply (ProjectInv_evolve w); simpl; try done.
    + by apply same_projects_alter.
    + intros h t pid Hlt _. by left.
  - destruct (sockets w !! s) as [sock|] eqn:Hl; [|done].
    destruct (close_fired sock); [done|].
    destruct (onclose_fields (opened_for sock) s code (with_sockets (alter mark_closed s) w))
      as (Es & Ew & Ec & _).
    apply (ProjectInv_evolve w); try done.
    + rewrite Es. by apply same_projects_alter.
    + intros h t pid Hlt Hcb.
      apply onclose_timers in Hlt as [Hold|[Hnew Hcur]]; [by left|right].
      simpl in Hcur. exists s, (mark_closed sock). rewrite Ew, Es. simpl.
      rewrite list_lookup_alter_eq, Hl. split_and!; try done. simpl. congruence.
  - destruct (timers w !! handle) as [t|] eqn:Hl; [|done].
    destruct (callback t) as [|pid] eqn:Hcb.
    + unfold heartbeat_expired, ws_close. cbv zeta.
      destruct (ws_is OPEN _); apply (ProjectInv_evolve w); simpl; try done;
        try apply same_projects_close; try apply same_projects_refl;
        try (by apply inv_rc_idle);
        intros h t' pid' [_ Hlt]%lookup_delete_Some _; by left.
    + apply ProjectInv_connect.
      * eapply TimerInv_fire_reconnect; [done..|]. unfold is_reconnect. by rewrite Hcb.
      * apply (ProjectInv_evolve w); simpl; try done.
        -- apply same_projects_refl.
        -- intros h t' pid' [_ Hlt]%lookup_delete_Some _. by left.
  - destruct (sendMessage_frame now message imgs files w) as (Ew&Er&Ec&_&Et&_&_&Hs).
    apply (ProjectInv_evolve w); try done.
    + by apply same_projects_sent.
    + intros h t pid Hlt _. left. by rewrite <- Et.
    + intros h. rewrite Er, Ec. by apply inv_rc_idle.
  - destruct (stopAgent_frame w) as (Ew&Er&Ec&_&Et&_&_&Hs).
    apply (ProjectInv_evolve w); try done.
    + by apply same_projects_sent.
    + intros h t pid Hlt _. left. by rewrite <- Et.
    + intros h. rewrite Er, Ec. by apply inv_rc_idle.
Qed.

Lemma ProjectInv_reachable w : reachable w -> ProjectInv w.
Proof.
  intros [evs ->]. induction evs as [|ev evs IH] using rev_ind.
  - apply ProjectInv_initial.
  - rewrite run_snoc.
    destruct (invariants_reachable (run evs initial_world)) as [HT HI]; [by eexists|].
    by apply ProjectInv_step.
Qed.

(** X14: every socket of a reachable world was made for a non-empty
    project id, at [wss:] or [ws:] (as the page is [https:] or not)
    [//host/ws/chat/] followed by that id. *)
Theorem sockets_made_for_project w s sock :
  reachable w -> sockets w !! s = Some sock ->
  opened_for sock <> "" /\
  url sock = ((if String.eqb location_protocol "https:" then "wss:" else "ws:")
                ++ "//" ++ location_host ++ "/ws/chat/" ++ opened_for sock)%string.
Proof.
  intros HP%ProjectInv_reachable Hl. by apply (inv_socket_project _ HP s).
Qed.

Lemma alter_fixed {A} (f : A -> A) (l : list A) i x :
  l !! i = Some x -> f x = x -> alter f i l = l.
Proof.
  intros Hl Hf. apply list_eq. intros j. destruct (decide (i = j)) as [<-|Hne].
  - rewrite list_lookup_alter_eq, Hl. simpl. by rewrite Hf.
  - by rewrite list_lookup_alter_ne.
Qed.

(** [connect] past its guards. *)
Lemma connect_proceeds pid w :
  projectId_set pid = true -> isConnectingRef w = false ->
  ws_is CONNECTING w = false -> ws_is OPEN w = false ->
  sockets (connect pid w) =
    match wsRef w with
    | Some s => alter (close_socket None) s (sockets w)
    | None => sockets w
    end ++ [mkSocket (wsUrl_of (default "" pid)) CONNECTING None [] (default "" pid) false] /\
  wsRef (connect pid w) = Some (length (sockets w)) /\
  store (connect pid w) = store w /\
  isConnectingRef (connect pid w) = true /\
  heartbeatTimer (connect pid w) = heartbeatTimer w /\
  timers (connect pid w) =
    (if handle_set (reconnectTimeout w)
     then delete (default 0%nat (reconnectTimeout w)) (timers w) else timers w).
Proof.
  intros Hp Hc Hco Hop. unfold connect, new_WebSocket, ws_close, clearTimeout.
  rewrite Hp, Hc, Hco, Hop. simpl.
  destruct (wsRef w) as [s|]; destruct (handle_set (reconnectTimeout w)) eqn:E; simpl;
    rewrite ?E; simpl; rewrite ?length_alter; by split_and!.
Qed.

Lemma ws_is_closed st w s sock :
  wsRef w = Some s -> sockets w !! s = Some sock -> readyState sock = CLOSED ->
  st <> CLOSED -> ws_is st w = false.
Proof.
  intros Hw Hl Hst Hne. unfold ws_is, ws_readyState. rewrite Hw. simpl. rewrite Hl. simpl.
  rewrite Hst. by destruct st.
Qed.

(** A reconnect timeout coming due. *)
Lemma due_reconnect h t pid w :
  TimerInv w -> SocketInv w -> ProjectInv w ->
  timers w !! h = Some t -> callback t = Reconnect pid ->
  (exists s sock,
     wsRef w = Some s /\ sockets w !! s = Some sock /\
     opened_for sock = pid /\ readyState sock = CLOSED) /\
  sockets (step (EvTimeout h) w) =
    sockets w ++ [mkSocket (wsUrl_of pid) CONNECTING None [] pid false] /\
  wsRef (step (EvTimeout h) w) = Some (length (sockets w)) /\
  timers (step (EvTimeout h) w) = delete h (timers w) /\
  store (step (EvTimeout h) w) = store w.
Proof.
  intros HT HI HP Hl Hcb.
  assert (is_reconnect t = true) as Hk by (unfold is_reconnect; by rewrite Hcb).
  pose proof (inv_rc_only _ HT _ _ Hl Hk) as Hrc.
  destruct (inv_rc_closed _ HI _ Hrc) as (s & sock & Hw & Hs & Hf).
  pose proof (inv_fired _ HI _ _ Hs Hf) as Hst.
  destruct (inv_rc_project _ HP _ _ _ Hl Hcb) as (s' & sock' & Hw' & Hs' & Hpid).
  assert (s' = s) as -> by congruence. assert (sock' = sock) as -> by congruence.
  destruct (inv_socket_project _ HP _ _ Hs) as [Hne _]. rewrite Hpid in Hne.
  pose proof (inv_rc_idle _ HP _ Hrc) as Hidle.
  split; [by exists s, sock|].
  cbn [step]. rewrite Hl, Hcb. unfold reconnect_fired.
  set (w1 := with_reconnectTimeout None (with_timers (delete h) w)).
  destruct (connect_proceeds (Some pid) w1) as (Es & Ew & Est & _ & _ & Et).
  - simpl. by apply negb_true_iff, String.eqb_neq.
  - done.
  - by apply (ws_is_closed _ w1 s sock).
  - by apply (ws_is_closed _ w1 s sock).
  - rewrite Es, Ew, Est, Et. simpl. rewrite Hw.
    by rewrite (alter_fixed _ _ _ _ Hs (close_socket_idle None sock ltac:(unfold live; by rewrite Hst))).
Qed.

(** X15: a reconnect timeout is only ever pending for the project of the
    current socket, and that socket is closed; when the timeout comes due a
    socket is made for the same project at the same URL and becomes the
    current one, no reconnect is pending any more and the store is as it
    was. *)
Theorem due_reconnect_opens_socket h t pid w :
  reachable w -> timers w !! h = Some t -> callback t = Reconnect pid ->
  (exists s sock,
     wsRef w = Some s /\ sockets w !! s = Some sock /\
     opened_for sock = pid /\ url sock = wsUrl_of pid /\ readyState sock = CLOSED) /\
  sockets (step (EvTimeout h) w) =
    sockets w ++ [mkSocket (wsUrl_of pid) CONNECTING None [] pid false] /\
  wsRef (step (EvTimeout h) w) = Some (length (sockets w)) /\
  reconnect_pending (step (EvTimeout h) w) = false /\
  store (step (EvTimeout h) w) = store w.
Proof.
  intros Hr Hl Hcb.
  destruct (invariants_reachable w Hr) as [HT HI].
  pose proof (ProjectInv_reachable w Hr) as HP.
  destruct (due_reconnect h t pid w HT HI HP Hl Hcb)
    as ((s & sock & Hw & Hs & Hpid & Hst) & Es & Ew & Et & Est).
  split_and!; try done.
  - exists s, sock. split_and!; try done.
    destruct (inv_socket_project _ HP _ _ Hs) as [_ ->]. by rewrite Hpid.
  - destruct (invariants_reachable _ (reachable_step (EvTimeout h) w Hr)) as [HT' _].
    rewrite (reconnect_pending_ref _ HT').
    assert (is_reconnect t = true) as Hk by (unfold is_reconnect; by rewrite Hcb).
    pose proof (inv_rc_only _ HT _ _ Hl Hk) as Hrc.
    destruct (TimerInv_rc _ HT') as [->|[h' Hrc']]; [done|].
    destruct (inv_rc_pending _ HT' _ Hrc') as (t' & Hl' & Hk').
    rewrite Et in Hl'. apply lookup_delete_Some in Hl' as [Hne Hl'].
    pose proof (inv_rc_only _ HT _ _ Hl' Hk'). congruence.
Qed.

(** The open event of a connecting socket. *)
Lemma open_event s sock w :
  TimerInv w -> SocketInv w ->
  sockets w !! s = Some sock -> readyState sock = CONNECTING ->
  wsRef w = Some s /\
  wsRef (step (EvOpen s) w) = Some s /\
  sockets (step (EvOpen s) w) = alter (set_readyState OPEN) s (sockets w) /\
  store (step (EvOpen s) w) = setWs (Some s) (store w) /\
  isConnectingRef (step (EvOpen s) w) = false /\
  heartbeat_timers (step (EvOpen s) w) =
    {[ next_timer w := mkTimer HeartbeatExpired HEARTBEAT_TIMEOUT_MS ]}.
Proof.
  intros HT HI Hl Hst.
  assert (wsRef w = Some s) as Hw.
  { destruct (decide (wsRef w = Some s)) as [|Hne]; [done|].
    pose proof (inv_others _ HI _ _ Hl Hne) as Hlive. unfold live in Hlive.
    by rewrite Hst in Hlive. }
  cbn [step]. rewrite Hl, Hst.
  destruct (onopen_fields s (with_sockets (alter (set_readyState OPEN) s) w))
    as (Es & Ew & _ & Ec & Est & _).
  split_and!; try done.
  - by rewrite Ew.
  - unfold onopen. cbv zeta.
    change (heartbeat_timers (with_store ?f ?x)) with (heartbeat_timers x).
    rewrite heartbeat_timers_reset; [done|].
    by apply TimerInv_with_isConnectingRef, TimerInv_log, TimerInv_with_sockets.
Qed.

(** X16: an open event can only come from the current socket; after it the
    hook's socket is open, the store holds it and says connected, the
    connecting flag is down and exactly one watchdog timeout, of 45 s, is
    pending. *)
Theorem open_event_publishes s sock w :
  reachable w -> sockets w !! s = Some sock -> readyState sock = CONNECTING ->
  wsRef w = Some s /\
  ws_is OPEN (step (EvOpen s) w) = true /\
  ws (store (step (EvOpen s) w)) = Some s /\
  wsConnected (store (step (EvOpen s) w)) = true /\
  isConnectingRef (step (EvOpen s) w) = false /\
  heartbeat_timers (step (EvOpen s) w) = {[ next_timer w := mkTimer HeartbeatExpired 45000 ]}.
Proof.
  intros [HT HI]%invariants_reachable Hl Hst.
  destruct (open_event s sock w HT HI Hl Hst) as (Hw & Hw' & Es & Est & Ec & Eh).
  split_and!; try done.
  - unfold ws_is, ws_readyState. rewrite Hw', Es. simpl.
    by rewrite list_lookup_alter_eq, Hl.
  - by rewrite Est.
  - by rewrite Est.
Qed.

(** The close event of a socket that is not the current one. *)
Lemma heartbeat_timers_onclose pid s code w :
  TimerInv w -> heartbeat_timers (onclose pid s code w) = ∅.
Proof.
  intros HT. apply map_empty. intros h. apply map_lookup_filter_None. right.
  intros t Hl Hk. simpl in Hk.
  assert (timers w !! h = Some t /\
          (handle_set (heartbeatTimer w) = true -> h <> default 0%nat (heartbeatTimer w)))
    as [Hold Hne].
  { revert Hl. unfold onclose, setTimeout, clearTimeout. cbv zeta. simpl.
    destruct (handle_set (heartbeatTimer w)); simpl;
      destruct (negb (code =? 1000)); simpl;
      destruct (handle_set (reconnectTimeout w)); simpl;
      try case_bool_decide; simpl;
      rewrite ?lookup_insert_Some, ?lookup_delete_Some;
      intros Hl; intuition (subst; simpl in *; try done; auto). }
  pose proof (inv_hb_only _ HT _ _ Hold Hk) as Hh.
  rewrite Hh in Hne. simpl in Hne.
  destruct (inv_hb_lt _ HT _ Hh) as [Hpos _].
  destruct h as [|h]; [lia|]. by apply Hne.
Qed.

(** X17: the close event of any socket, current or not, empties the
    store's handle, sets [wsConnected] to false, cancels the watchdog and
    lowers the connecting flag; where the socket is not the current one the
    current socket's state and the pending reconnects are as they were. *)
Theorem close_event_disconnects s sock code w :
  reachable w -> sockets w !! s = Some sock -> close_fired sock = false ->
  ws (store (step (EvClose s code) w)) = None /\
  wsConnected (store (step (EvClose s code) w)) = false /\
  heartbeat_timers (step (EvClose s code) w) = ∅ /\
  isConnectingRef (step (EvClose s code) w) = false /\
  sockets (step (EvClose s code) w) = alter mark_closed s (sockets w) /\
  wsRef (step (EvClose s code) w) = wsRef w /\
  (wsRef w <> Some s ->
     ws_readyState (step (EvClose s code) w) = ws_readyState w /\
     reconnect_timers (step (EvClose s code) w) = reconnect_timers w).
Proof.
  intros [HT HI]%invariants_reachable Hl Hf. cbn [step]. rewrite Hl, Hf.
  set (w0 := with_sockets (alter mark_closed s) w).
  assert (TimerInv w0) as HT0 by (by apply TimerInv_with_sockets).
  destruct (onclose_fields (opened_for sock) s code w0) as (Es & Ew & Ec & Eh & Hrest).
  rewrite store_onclose, heartbeat_timers_onclose by done.
  split_and!; try done.
  intros Hne. destruct (Hrest Hne) as (Et & _). split.
  - unfold ws_readyState. rewrite Ew, Es. simpl.
    destruct (wsRef w) as [s'|]; [|done]. simpl.
    rewrite list_lookup_alter_ne; [done|congruence].
  - unfold reconnect_timers. rewrite Et. simpl.
    destruct (handle_set (heartbeatTimer w)) eqn:Hset; [|done].
    apply map_eq. intros h. apply option_eq. intros t.
    rewrite !map_lookup_filter_Some, lookup_delete_Some. simpl.
    split; [tauto|]. intros [Hlt Hk]. split_and!; try done.
    intros <-. destruct (heartbeatTimer w) as [h|] eqn:Hh; [|done]. simpl in *.
    pose proof (inv_hb_kind _ HT _ _ Hh Hlt). congruence.
Qed.

Lemma open_socket_fresh w s sock :
  SocketInv w -> wsRef w = Some s -> sockets w !! s = Some sock -> readyState sock = OPEN ->
  close_fired sock = false /\ reconnectTimeout w = None.
Proof.
  intros HI Hw Hs Hst. split.
  - destruct (close_fired sock) eqn:E; [|done].
    pose proof (inv_fired _ HI _ _ Hs E). congruence.
  - destruct (reconnectTimeout w) as [h|] eqn:Hrc; [|done].
    destruct (inv_rc_closed _ HI _ Hrc) as (s' & sock' & Hw' & Hs' & Hf').
    pose proof (inv_fired _ HI _ _ Hs' Hf'). congruence.
Qed.

(** The watchdog coming due on an open current socket. *)
Lemma watchdog_fires h t s sock w :
  timers w !! h = Some t -> callback t = HeartbeatExpired ->
  wsRef w = Some s -> sockets w !! s = Some sock -> readyState sock = OPEN ->
  sockets (step (EvTimeout h) w) = alter (close_socket (Some 4000)) s (sockets w) /\
  wsRef (step (EvTimeout h) w) = Some s /\
  reconnectTimeout (step (EvTimeout h) w) = reconnectTimeout w /\
  next_timer (step (EvTimeout h) w) = next_timer w /\
  store (step (EvTimeout h) w) = store w.
Proof.
  intros Hl Hcb Hw Hs Hst. cbn [step]. rewrite Hl, Hcb.
  unfold heartbeat_expired, ws_is, ws_readyState, ws_close. simpl.
  rewrite Hw. simpl. rewrite Hs. simpl. by rewrite Hst.
Qed.

(** X18: when the watchdog comes due on the open current socket, that
    socket is closed with code 4000; its close event, whatever code other
    than 1000 it carries, schedules a reconnect for the same project, after
    1000 ms when the code is 4000 and after 5000 ms otherwise; when that
    comes due a socket is made at the same URL; and once that opens the
    store holds it and says connected, with exactly one socket connecting
    or open. *)
Theorem silent_connection_replaced h t s sock code w :
  reachable w ->
  timers w !! h = Some t -> callback t = HeartbeatExpired ->
  wsRef w = Some s -> sockets w !! s = Some sock -> readyState sock = OPEN ->
  code <> 1000 ->
  let w1 := step (EvTimeout h) w in
  let w2 := step (EvClose s code) w1 in
  let w3 := step (EvTimeout (next_timer w)) w2 in
  let w4 := step (EvOpen (length (sockets w))) w3 in
  sockets w1 !! s =
    Some (mkSocket (url sock) CLOSING (Some 4000) (outbox sock) (opened_for sock) false) /\
  timers w2 !! next_timer w =
    Some (mkTimer (Reconnect (opened_for sock)) (if code =? 4000 then 1000 else 5000)) /\
  sockets w3 !! length (sockets w) =
    Some (mkSocket (url sock) CONNECTING None [] (opened_for sock) false) /\
  wsRef w4 = Some (length (sockets w)) /\ ws_is OPEN w4 = true /\
  ws (store w4) = Some (length (sockets w)) /\ wsConnected (store w4) = true /\
  length (live_sockets w4) = 1%nat.
Proof.
  intros Hr Hl Hcb Hw Hs Hst Hcode w1 w2 w3 w4.
  destruct (invariants_reachable w Hr) as [HT HI].
  pose proof (ProjectInv_reachable w Hr) as HP.
  destruct (open_socket_fresh w s sock HI Hw Hs Hst) as [Hnf Hrc].
  destruct (inv_socket_project _ HP _ _ Hs) as [Hpid Hurl].
  (* the watchdog *)
  destruct (watchdog_fires h t s sock w Hl Hcb Hw Hs Hst) as (Es1 & Ew1 & Er1 & En1 & _).
  fold w1 in Es1, Ew1, Er1, En1.
  assert (reachable w1) as Hr1 by (by apply reachable_step).
  destruct (invariants_reachable w1 Hr1) as [HT1 HI1].
  assert (sockets w1 !! s = Some (close_socket (Some 4000) sock)) as Hs1
    by (by rewrite Es1, list_lookup_alter_eq, Hs).
  assert (close_fired (close_socket (Some 4000) sock) = false) as Hnf1
    by (unfold close_socket; by rewrite Hst).
  (* the close event *)
  assert (reachable w2) as Hr2 by (by apply reachable_step).
  destruct (invariants_reachable w2 Hr2) as [HT2 HI2].
  pose proof (ProjectInv_reachable w2 Hr2) as HP2.
  pose proof (close_event_schedule s code w1 _ HT1 Hs1 Hnf1) as Hsched.
  fold w2 in Hsched.
  rewrite (reconnect_pending_ref _ HT1), Er1, Hrc, Ew1, bool_decide_true in Hsched by done.
  rewrite (proj2 (Z.eqb_neq code 1000) Hcode) in Hsched.
  simpl in Hsched. unfold scheduled_reconnect in Hsched. rewrite En1 in Hsched.
  destruct (timers w2 !! next_timer w) as [t2|] eqn:Hl2; [|done].
  destruct t2 as [cb2 d2]. unfold is_reconnect in Hsched. simpl in Hsched.
  destruct cb2 as [|pid2]; [done|]. injection Hsched as ->.
  assert (sockets w2 = alter mark_closed s (sockets w1) /\ wsRef w2 = Some s) as [Es2 Ew2].
  { subst w2. cbn [step]. rewrite Hs1, Hnf1.
    destruct (onclose_fields (opened_for (close_socket (Some 4000) sock)) s code
                (with_sockets (alter mark_closed s) w1)) as (E1 & E2 & _).
    by rewrite E1, E2. }
  assert (pid2 = opened_for sock) as ->.
  { destruct (inv_rc_project _ HP2 _ _ _ Hl2 eq_refl) as (s' & sock' & Hw' & Hs' & <-).
    rewrite Ew2 in Hw'. injection Hw' as <-.
    rewrite Es2, list_lookup_alter_eq, Hs1 in Hs'. injection Hs' as <-.
    unfold close_socket. by rewrite Hst. }
  assert (length (sockets w2) = length (sockets w)) as Elen
    by (by rewrite Es2, Es1, !length_alter).
  (* the reconnect *)
  destruct (due_reconnect _ _ _ w2 HT2 HI2 HP2 Hl2 eq_refl) as (_ & Es3 & Ew3 & _ & Est3).
  fold w3 in Es3, Ew3, Est3. rewrite Elen in Ew3.
  assert (sockets w3 !! length (sockets w) =
          Some (mkSocket (url sock) CONNECTING None [] (opened_for sock) false)) as Hs3.
  { rewrite Es3, Hurl, <- Elen. by apply list_lookup_middle. }
  assert (reachable w3) as Hr3 by (by apply reachable_step).
  destruct (invariants_reachable w3 Hr3) as [HT3 HI3].
  (* the open event *)
  destruct (open_event _ _ w3 HT3 HI3 Hs3 eq_refl) as (_ & Ew4 & Es4 & Est4 & _).
  fold w4 in Ew4, Es4, Est4.
  assert (reachable w4) as Hr4 by (by apply reachable_step).
  destruct (invariants_reachable w4 Hr4) as [_ HI4].
  assert (sockets w4 !! length (sockets w) =
          Some (set_readyState OPEN
                  (mkSocket (url sock) CONNECTING None [] (opened_for sock) false))) as Hs4
    by (by rewrite Es4, list_lookup_alter_eq, Hs3).
  split_and!; try done.
  - rewrite Hs1. unfold close_socket. by rewrite Hst, Hnf.
  - unfold ws_is, ws_readyState. rewrite Ew4. simpl. by rewrite Hs4.
  - by rewrite Est4.
  - by rewrite Est4.
  - pose proof (live_sockets_at_most_one _ HI4).
    pose proof (filter_live_some _ _ _ Hs4 eq_refl). unfold live_sockets in *. lia.
Qed.

(** ** Outbound actions *)

Lemma files_copied (fs : list AttachedFile) :
  (fun f => mkAttachedFile (filename f) (file_content f)) <$> fs = fs.
Proof. induction fs as [|[] fs IH]; [done|]. by rewrite fmap_cons, IH. Qed.

(** X19: with a socket in the store, [sendMessage] returns normally and
    hands that socket one frame -- the message, the images where there are
    any, the attached files where there are any -- provided the socket is
    open; on a socket that is closing or closed nothing is handed over, yet
    the user message is appended to the history all the same.  No timeout is
    touched. *)
Theorem sendMessage_transmits now message imgs files w s sock :
  reachable w -> ws (store w) = Some s -> sockets w !! s = Some sock ->
  (sendMessage now message imgs files w).2 = Normal tt /\
  sockets (sendMessage now message imgs files w).1 =
    (if ReadyState_eqb (readyState sock) OPEN
     then <[ s := enqueue (OutTurn message (nonempty imgs) (nonempty files)) sock ]> (sockets w)
     else sockets w) /\
  messages (store (sendMessage now message imgs files w).1) =
    messages (store w) ++
      [mkChatMessage (mkNewMessage "user" (VString message) imgs files) now now] /\
  timers (sendMessage now message imgs files w).1 = timers w.
Proof.
  intros Hr Hws Hl.
  destruct (invariants_reachable w Hr) as [_ HI].
  pose proof (wsConnected_reachable w Hr) as Hc. rewrite Hws in Hc.
  destruct (inv_store_ws _ HI _ Hws) as (sock' & Hl' & Hne).
  assert (sock' = sock) as -> by congruence.
  assert (fmap (M := list) (fun f => mkAttachedFile (filename f) (file_content f))
            <$> nonempty files = nonempty files) as Hfiles.
  { destruct (nonempty files) as [fs|]; [|done].
    change (Some ((fun f => mkAttachedFile (filename f) (file_content f)) <$> fs) = Some fs).
    by rewrite files_copied. }
  unfold sendMessage, ws_send, bind, update_store, modify. rewrite Hws, Hc, Hl, Hfiles. simpl.
  destruct (readyState sock) eqn:Hst; simpl; try done.
  split_and!; try done.
  apply list_eq. intros j. destruct (decide (s = j)) as [<-|Hj].
  - rewrite list_lookup_alter_eq, list_lookup_insert_eq, Hl; [done|].
    by eapply lookup_lt_Some.
  - by rewrite list_lookup_alter_ne, list_lookup_insert_ne.
Qed.

(** X20: [stopAgent] never raises; with no socket in the store it changes
    nothing; with one it sets the status to [idle], hands the socket one
    stop frame provided it is open, and leaves timeouts and the current
    socket alone. *)
Theorem stopAgent_effect w :
  reachable w ->
  (stopAgent w).2 = Normal tt /\
  (ws (store w) = None -> (stopAgent w).1 = w) /\
  (forall s sock,
     ws (store w) = Some s -> sockets w !! s = Some sock ->
     store (stopAgent w).1 = setAgentStatus "idle" (store w) /\
     sockets (stopAgent w).1 =
       (if ReadyState_eqb (readyState sock) OPEN
        then <[ s := enqueue OutStop sock ]> (sockets w)
        else sockets w) /\
     timers (stopAgent w).1 = timers w /\ wsRef (stopAgent w).1 = wsRef w).
Proof.
  intros Hr. destruct (invariants_reachable w Hr) as [_ HI].
  pose proof (wsConnected_reachable w Hr) as Hc.
  unfold stopAgent, ws_send, bind, update_store, modify.
  destruct (ws (store w)) as [s|] eqn:Hws; [|by split_and!].
  rewrite Hc. simpl.
  destruct (inv_store_ws _ HI _ Hws) as (sock & Hl & Hne).
  rewrite Hl. simpl. split_and!.
  - by destruct (readyState sock).
  - done.
  - intros s' sock' [= <-] Hl'. assert (sock' = sock) as -> by congruence.
    destruct (readyState sock) eqn:Hst; simpl; try done.
    split_and!; try done.
    apply list_eq. intros j. destruct (decide (s = j)) as [<-|Hj].
    + rewrite list_lookup_alter_eq, list_lookup_insert_eq, Hl; [done|].
      by eapply lookup_lt_Some.
    + by rewrite list_lookup_alter_ne, list_lookup_insert_ne.
Qed.

(** ** The panels *)

Lemma action_is_activity v :
  has ACTION_TYPES v = has ACTIVITY_TYPES v && negb (is_str v "error").
Proof.
  destruct v; try done. rewrite !has_string, is_str_VString.
  apply eq_true_iff_eq.
  rewrite andb_true_iff, negb_true_iff, !bool_decide_eq_true, bool_decide_eq_false.
  unfold ACTION_TYPES, ACTIVITY_TYPES. set_unfold.
  split; [intros Hk; split; [tauto|]; intros ->; by destruct_or!|].
  intros [Hk Hne]. destruct_or!; auto. done.
Qed.

Lemma filter_filter {A} (p q : A -> bool) (l : list A) :
  List.filter p (List.filter q l) = List.filter (fun x => q x && p x) l.
Proof.
  induction l as [|x l IH]; [done|]. simpl.
  destruct (q x); simpl; [destruct (p x)|]; by rewrite IH.
Qed.

(** X21: the action steps of the ProcessDialog summary are the Activity
    steps but for those of kind [error]; none of them is a dialogue step;
    and the last action step is the newest step of an action kind, so a
    step of another kind leaves it as it was. *)
Theorem action_steps_view (steps : list Step) :
  actionSteps steps =
    List.filter (fun s => negb (is_str (step_type s) "error")) (activitySteps steps) /\
  (forall s, s ∈ actionSteps steps -> s ∉ dialogSteps steps) /\
  (forall s,
     lastActionStep (steps ++ [s]) =
       if has ACTION_TYPES (step_type s) then Some s else lastActionStep steps).
Proof.
  unfold lastActionStep, actionSteps, activitySteps, dialogSteps. split_and!.
  - rewrite filter_filter. apply List.filter_ext. intros s. apply action_is_activity.
  - intros s. rewrite !list_elem_of_In, !filter_In.
    intros [_ Ha] [_ Hd]. rewrite action_is_activity in Ha.
    apply andb_true_iff in Ha as [Ha _]. apply views_disjoint in Ha. congruence.
  - intros s. rewrite List.filter_app. simpl.
    destruct (has ACTION_TYPES (step_type s)).
    + by rewrite last_snoc.
    + by rewrite app_nil_r.
Qed.

(** X22: an [agent_step] message is recorded as one step, which each of
    the three views shows exactly when the step's kind is in that view's
    set; a step that came without a kind is recorded under the message type
    and shows in none of them. *)
Theorem views_after_step now data w :
  is_str (field data "type") "agent_step" = true ->
  let kind := js_or (field data "step_type") (field data "type") in
  let st := mkStep data kind in
  let shown (set : gset string) := if has set kind then [st] else [] in
  agentSteps (store (deliver now data w)) = agentSteps (store w) ++ [st] /\
  activitySteps (agentSteps (store (deliver now data w))) =
    activitySteps (agentSteps (store w)) ++ shown ACTIVITY_TYPES /\
  dialogSteps (agentSteps (store (deliver now data w))) =
    dialogSteps (agentSteps (store w)) ++ shown DIALOG_TYPES /\
  actionSteps (agentSteps (store (deliver now data w))) =
    actionSteps (agentSteps (store w)) ++ shown ACTION_TYPES /\
  (truthy (field data "step_type") = false ->
     shown ACTIVITY_TYPES = [] /\ shown DIALOG_TYPES = [] /\ shown ACTION_TYPES = []).
Proof.
  intros Hty kind st shown.
  assert (agentSteps (store (deliver now data w)) = agentSteps (store w) ++ [st]) as E.
  { rewrite deliver_steps. unfold recorded_step. by rewrite Hty. }
  rewrite E. unfold activitySteps, dialogSteps, actionSteps. rewrite !List.filter_app.
  split_and!; try done.
  intros Hk. subst shown kind. simpl. unfold js_or. rewrite Hk.
  apply is_str_true in Hty. by rewrite Hty.
Qed.

(** X23: over the five statuses the panels' badge is shown exactly when
    the chat panel counts the agent as working or the status is [error]; it
    reads [Думает] exactly for [thinking], and is hidden exactly for [idle]
    and [done]. *)
Theorem working_badges status :
  status ∈ STATUSES ->
  isWorking status = Chat_isWorking status || String.eqb status "error" /\
  (status_badge status = Some "Думает" <-> status = "thinking") /\
  (status_badge status = None <-> status = "idle" \/ status = "done").
Proof.
  unfold STATUSES. set_unfold. intros Hs. destruct_or!; subst; vm_compute; intuition congruence.
Qed.

(** ** The composer *)

Lemma sendMessage_open now message imgs files w s :
  SocketInv w -> ws (store w) = Some s -> wsConnected (store w) = true ->
  (sendMessage now message imgs files w).2 = Normal tt /\
  store (sendMessage now message imgs files w).1 =
    setAgentStatus "thinking" (set_agentSteps [] (set_streamingContent ""
      (addMessage now (mkNewMessage "user" (VString message) imgs files) (store w)))).
Proof.
  intros HI Hws Hc. destruct (inv_store_ws _ HI _ Hws) as (sock & Hl & Hne).
  unfold sendMessage, ws_send, bind, update_store, modify. rewrite Hws, Hc, Hl. simpl.
  by destruct (readyState sock).
Qed.

Lemma str_or_nonempty s fallback : fallback <> "" -> str_or s fallback <> "".
Proof. unfold str_or. by destruct (String.eqb_spec s ""). Qed.

(** X24: [handleSend] changes nothing when there is neither text nor an
    attachment, or when the store says not connected; otherwise it sends
    one user message whose text is not empty -- the trimmed input, or the
    default prompt where that is empty -- with the images and files of the
    composer, empties the composer and leaves the status at [thinking]. *)
Theorem handleSend_sends_or_keeps now c w :
  reachable w ->
  let blank :=
    String.eqb (trim (input c)) "" && bool_decide (composer_images c = [])
      && bool_decide (composer_files c = []) in
  (blank = true \/ wsConnected (store w) = false -> handleSend now c w = (w, Normal c)) /\
  (blank = false -> wsConnected (store w) = true ->
     exists message,
       message <> "" /\ (trim (input c) <> "" -> message = trim (input c)) /\
       (handleSend now c w).2 = Normal (mkComposer "" [] []) /\
       messages (store (handleSend now c w).1) =
         messages (store w) ++
           [mkChatMessage
              (mkNewMessage "user" (VString message)
                 (or_null (base64 <$> composer_images c))
                 (if bool_decide (composer_files c <> [])
                  then Some ((fun f => mkAttachedFile (pasted_filename f) (pasted_content f))
                               <$> composer_files c)
                  else None))
              now now] /\
       agentStatus (store (handleSend now c w).1) = "thinking" /\
       streamingContent (store (handleSend now c w).1) = "" /\
       liveAssistantContent (store (handleSend now c w).1) = "").
Proof.
  intros Hr blank.
  assert (String.eqb (trim (input c)) ""
          && negb (bool_decide (composer_images c <> []) || bool_decide (composer_files c <> []))
          = blank) as Hblank.
  { subst blank. rewrite negb_orb, andb_assoc.
    destruct (composer_images c), (composer_files c); simpl;
      by rewrite ?andb_true_r, ?andb_false_r. }
  unfold handleSend. cbv zeta. rewrite Hblank. split.
  - intros [-> | ->]; [done|]. by rewrite orb_true_r.
  - intros -> Hc. rewrite Hc. simpl.
    destruct (invariants_reachable w Hr) as [_ HI].
    pose proof (wsConnected_reachable w Hr) as Hws. rewrite Hc in Hws.
    symmetry in Hws. apply bool_decide_eq_true in Hws as [s Hws].
    exists (str_or (trim (input c))
              (if bool_decide (composer_images c <> [])
               then "Проанализируй изображение и создай код"
               else "Обработай прикреплённые файлы")).
    unfold bind, ret.
    match goal with |- context [sendMessage now ?m ?i ?f w] =>
      destruct (sendMessage_open now m i f w s HI Hws Hc) as [E2 E1];
      destruct (sendMessage now m i f w) as [w' r] eqn:Es
    end.
    simpl in E1, E2. subst r. simpl. rewrite E1. simpl. split_and!; try done.
    + apply str_or_nonempty. by case_bool_decide.
    + unfold str_or. intros Hne. by destruct (String.eqb_spec (trim (input c)) "").
Qed.

(** X25: right after a turn is sent the chat panel shows its typing dots,
    reading [Думает...]; after a [thinking] step the live text is not empty
    and the dots are hidden. *)
Theorem typing_dots now data message imgs files w :
  (reachable w -> connection_open (store w) = true ->
     typing_indicator (store (sendMessage now message imgs files w).1) = Some "Думает...") /\
  (content_fits data = true ->
   is_str (field data "type") "agent_step" = true ->
   is_str (field data "step_type") "thinking" = true ->
     liveAssistantContent (store (deliver now data w)) <> "" /\
     typing_indicator (store (deliver now data w)) = None).
Proof.
  split.
  - intros Hr Hopen. destruct (invariants_reachable w Hr) as [_ HI].
    unfold connection_open in Hopen.
    destruct (ws (store w)) as [s|] eqn:Hws; [|done].
    destruct (wsConnected (store w)) eqn:Hc; [|done].
    destruct (sendMessage_open now message imgs files w s HI Hws Hc) as [_ ->].
    reflexivity.
  - intros Hfit Hty Hkind.
    assert (liveAssistantContent (store (deliver now data w)) <> "") as Hlive.
    { rewrite deliver_live by done. unfold live_after, live_text.
      rewrite Hty. apply is_str_true in Hkind. rewrite Hkind.
      rewrite js_or_truthy by done. simpl. by apply str_or_nonempty. }
    split; [done|]. unfold typing_indicator.
    destruct (String.eqb_spec (liveAssistantContent (store (deliver now data w))) "");
      [done|]. by rewrite andb_false_r.
Qed.

(** ** The connecting flag *)

Lemma ws_is_ext st w w' :
  wsRef w' = wsRef w -> sockets w' = sockets w -> ws_is st w' = ws_is st w.
Proof. intros Ew Es. unfold ws_is, ws_readyState. by rewrite Ew, Es. Qed.

Lemma ws_is_alter st f s w :
  (forall sock, readyState (f sock) = readyState sock) ->
  ws_is st (with_sockets (alter f s) w) = ws_is st w.
Proof.
  intros Hf. unfold ws_is, ws_readyState. simpl.
  destruct (wsRef w) as [s'|]; [|done]. simpl.
  destruct (decide (s = s')) as [<-|Hne].
  - rewrite list_lookup_alter_eq. destruct (sockets w !! s); [|done]. simpl. by rewrite Hf.
  - by rewrite list_lookup_alter_ne.
Qed.

Lemma ws_is_sent st w w' :
  wsRef w' = wsRef w ->
  (sockets w' = sockets w \/
   exists s payload, sockets w' = alter (enqueue payload) s (sockets w)) ->
  ws_is st w' = ws_is st w.
Proof.
  intros Ew [Es|(s & payload & Es)]; [by apply ws_is_ext|].
  rewrite <- (ws_is_alter st (enqueue payload) s w) by done.
  by apply ws_is_ext.
Qed.

Lemma ws_is_connecting_not_open w : ws_is CONNECTING w = true -> ws_is OPEN w = false.
Proof. unfold ws_is. destruct (ws_readyState w) as [[]|]; done. Qed.

Lemma isConnectingRef_cleanup w : isConnectingRef (cleanup w) = false.
Proof.
  unfold cleanup. cbv zeta.
  destruct (handle_set (heartbeatTimer w)); simpl;
    destruct (handle_set (reconnectTimeout w)); simpl; by destruct (wsRef w).
Qed.

Lemma connecting_flag_connect pid w :
  (isConnectingRef w = true -> ws_is CONNECTING w = true) ->
  isConnectingRef (connect pid w) = true -> ws_is CONNECTING (connect pid w) = true.
Proof.
  intros IH.
  destruct (connect_cases pid w) as [->|(_ & _ & _ & _ & url & Es & Ew & _)]; [done|].
  intros _. unfold ws_is, ws_readyState. rewrite Ew, Es. simpl.
  rewrite list_lookup_middle; [done|].
  destruct (wsRef w); by rewrite ?length_alter.
Qed.

Lemma connecting_flag_step ev w :
  (isConnectingRef w = true -> ws_is CONNECTING w = true) ->
  isConnectingRef (step ev w) = true -> ws_is CONNECTING (step ev w) = true.
Proof.
  intros IH. destruct ev; cbn [step].
  - by apply connecting_flag_connect.
  - by rewrite isConnectingRef_cleanup.
  - destruct (sockets w !! s) as [sock|]; [|done].
    destruct (readyState sock); try done.
    by destruct (onopen_fields s (with_sockets (alter (set_readyState OPEN) s) w))
      as (_ & _ & _ & -> & _).
  - destruct (sockets w !! s) as [sock|]; [|done].
    destruct (readyState sock); try done.
    destruct (onmessage_cases now event_data w) as [(data & _ & ->)|[_ ->]]; [|done].
    destruct (deliver_same_hook now data w) as (Ew & _ & Ec & _ & Es & _).
    destruct (resetHeartbeatTimer_fields w) as (Es' & Ew' & _ & Ec' & _).
    rewrite Ec, Ec'. intros Hc.
    rewrite (ws_is_ext _ (resetHeartbeatTimer w)) by done.
    rewrite (ws_is_ext _ w) by done. by apply IH.
  - destruct (sockets w !! s) as [sock|]; [|done].
    by destruct (close_fired sock).
  - destruct (sockets w !! s) as [sock|]; [|done].
    destruct (close_fired sock); [done|].
    by destruct (onclose_fields (opened_for sock) s code (with_sockets (alter mark_closed s) w))
      as (_ & _ & -> & _).
  - destruct (timers w !! handle) as [t|]; [|done].
    destruct (callback t) as [|pid].
    + unfold heartbeat_expired. cbv zeta.
      destruct (ws_is OPEN _) eqn:Hopen.
      * simpl. intros Hc. specialize (IH Hc).
        apply ws_is_connecting_not_open in IH.
        rewrite (ws_is_ext OPEN w) in Hopen by done. congruence.
      * simpl. intros Hc. rewrite (ws_is_ext _ w) by done. by apply IH.
    + apply connecting_flag_connect. simpl. intros Hc.
      rewrite (ws_is_ext _ w) by done. by apply IH.
  - destruct (sendMessage_frame now message imgs files w) as (Ew&_&Ec&_&_&_&_&Hs).
    rewrite Ec. intros Hc. rewrite (ws_is_sent _ w) by done. by apply IH.
  - destruct (stopAgent_frame w) as (Ew&_&Ec&_&_&_&_&Hs).
    rewrite Ec. intros Hc. rewrite (ws_is_sent _ w) by done. by apply IH.
Qed.

Lemma connecting_flag w :
  reachable w -> isConnectingRef w = true -> ws_is CONNECTING w = true.
Proof.
  intros [evs ->]. induction evs as [|ev evs IH] using rev_ind; [done|].
  rewrite run_snoc. by apply connecting_flag_step.
Qed.

(** X26: in every reachable world the connecting flag is up only while the
    current socket is connecting, so the flag never blocks [connect] on its
    own: [connect] does nothing exactly when there is no project id or the
    current socket is connecting or open. *)
Theorem connect_blocked_only_by_live_socket pid w :
  reachable w ->
  (isConnectingRef w = true -> ws_is CONNECTING w = true) /\
  (connect pid w = w <->
   projectId_set pid = false \/ ws_is CONNECTING w = true \/ ws_is OPEN w = true).
Proof.
  intros Hr. pose proof (connecting_flag w Hr) as Hflag. split; [done|]. split.
  - intros E. destruct (projectId_set pid) eqn:Hp; [|by left].
    destruct (ws_is CONNECTING w) eqn:Hc; [by right; left|].
    destruct (ws_is OPEN w) eqn:Ho; [by right; right|].
    destruct (isConnectingRef w) eqn:Hi; [by specialize (Hflag eq_refl)|].
    destruct (connect_proceeds pid w Hp Hi Hc Ho) as (_ & _ & _ & Hi' & _).
    rewrite E in Hi'. congruence.
  - intros Hcase. unfold connect.
    destruct (projectId_set pid); simpl; [|done].
    destruct Hcase as [?|[-> | ->]]; [done|by rewrite orb_true_r|].
    by destruct (isConnectingRef w || ws_is CONNECTING w).
Qed.

End Properties.

(** * Examples *)

Section Examples.

Local Open Scope list_scope.

#[local] Existing Instance integers.
#[local] Existing Instance example_host.

Lemma open_world_reachable : reachable open_world.
Proof. exists [EvMount (Some "p1"); EvOpen 0]. reflexivity. Defined.

(** The scenario that closes section 8 of the specification. *)
Example end_to_end :
  let w1 := (sendMessage 1 "build a page" None None open_world).1 in
  let w2 := deliver 2 (agent_step "thinking" "plan") w1 in
  let w3 := deliver 3 (agent_step "tool_call" "write_file") w2 in
  let w4 := deliver 4 (agent_response "done") w3 in
  agentStatus (store w1) = "thinking" /\
  (agentStatus (store w2) = "thinking" /\ liveAssistantContent (store w2) = "plan") /\
  (agentStatus (store w3) = "working" /\
   length (activitySteps (agentSteps (store w3))) = 2%nat /\
   dialogSteps (agentSteps (store w3)) = []) /\
  (role <$> (msg <$> messages (store w4)) = ["user"; "assistant"] /\
   content <$> (msg <$> messages (store w4)) = [VString "build a page"; VString "done"] /\
   streamingContent (store w4) = "" /\ liveAssistantContent (store w4) = "" /\
   agentStatus (store w4) = "done").
Proof. by vm_compute. Qed.

(** C1, counterexample: a [thinking] step whose content is not text is
    appended to the steps, then [trim] raises; the status stays [idle] where
    the table says [thinking]. *)
Lemma status_ill_typed_content :
  agentStatus (store (deliver_all [(0, ill_typed_step)] initial_world)) = "idle" /\
  length (agentSteps (store (deliver_all [(0, ill_typed_step)] initial_world))) = 1%nat /\
  status_of_history [ill_typed_step] = "thinking".
Proof. by vm_compute. Qed.

Lemma status_is_function_of_history_witness :
  agentStatus (store (deliver_all
      [(10, agent_step "thinking" "plan"); (20, agent_step "tool_call" "");
       (30, agent_stream_chunk "ok"); (40, agent_response "done")] initial_world))
  = "done".
Proof.
  rewrite status_is_function_of_history.
  - by vm_compute.
  - repeat (constructor; [by vm_compute|]). constructor.
Defined.



Lemma stream_chunks_accumulate_witness :
  streamingContent (store (deliver_all
      [(1, agent_stream_chunk "Hel"); (2, agent_stream_chunk "lo")] initial_world))
  = "Hello".
Proof.
  rewrite (proj1 (stream_chunks_accumulate
             [(1, agent_stream_chunk "Hel"); (2, agent_stream_chunk "lo")] initial_world
             ltac:(repeat (constructor; [by vm_compute|]); constructor))).
  by vm_compute.
Defined.

Lemma close_schedules_reconnect_witness :
  scheduled_reconnect open_world (step (EvClose 0 1006) open_world) = Some 5000 /\
  scheduled_reconnect open_world (step (EvClose 0 4000) open_world) = Some 1000 /\
  scheduled_reconnect open_world (step (EvClose 0 1000) open_world) = None.
Proof.
  split_and!;
    (etransitivity;
       [eapply (close_schedules_reconnect 0 _ open_world _ open_world_reachable);
          by vm_compute
       |by vm_compute]).
Defined.

Lemma terminal_message_appended_witness :
  content <$> (msg <$> messages (store (deliver 50 agent_stopped initial_world))) =
    [VString "⏹️ Агент остановлен"] /\
  streamingContent (store (deliver 50 agent_stopped initial_world)) = "".
Proof.
  destruct (terminal_message_appended 50 agent_stopped initial_world
              (mkNewMessage "assistant" (VString "⏹️ Агент остановлен") None None)
              ltac:(by vm_compute)) as (Hm & Hs & _).
  split; [by rewrite Hm | exact Hs].
Defined.

Lemma unknown_step_kind_recorded_witness :
  step_type <$> agentSteps (store (deliver 60 (agent_step "plan" "x") initial_world)) =
    [VString "plan"] /\
  agentStatus (store (deliver 60 (agent_step "plan" "x") initial_world)) = "idle".
Proof.
  destruct (unknown_step_kind_recorded 60 (agent_step "plan" "x") initial_world
              ltac:(by vm_compute)
              ltac:(intros k Hk; unfold STEP_KINDS in Hk; set_unfold;
                    destruct_or!; subst; by vm_compute))
    as (Hsteps & _ & _ & Hstatus & _).
  split; [by rewrite Hsteps | exact Hstatus].
Defined.

(** C10, counterexample: an [agent_step] whose [step_type] is the empty
    string, which is none of the four kinds, is recorded under the kind
    [agent_step], not under the kind it was given. *)
Lemma blank_step_kind_replaced :
  is_str (field blank_kind_step "type") "agent_step" = true /\
  field blank_kind_step "step_type" = VString "" /\
  (forall k, k ∈ STEP_KINDS -> is_str (field blank_kind_step "step_type") k = false) /\
  step_type <$> agentSteps (store (deliver 60 blank_kind_step initial_world)) =
    [VString "agent_step"] /\
  ~ (step_type <$> agentSteps (store (deliver 60 blank_kind_step initial_world)) =
       [field blank_kind_step "step_type"]).
Proof.
  split_and!; [by vm_compute | by vm_compute | | by vm_compute | by vm_compute].
  intros k Hk. unfold STEP_KINDS in Hk. set_unfold. destruct_or!; subst; by vm_compute.
Qed.

Lemma onmessage_never_raises_witness :
  (onmessage 5 "oops" open_world).2 = Normal tt /\
  (onmessage 5 "oops" open_world).1 = log (ErrorParse SyntaxError) open_world /\
  store (onmessage 5 "42" open_world).1 = store open_world /\
  console (onmessage 5 "42" open_world).1 = console open_world ++ [LogUnknownType VUndefined].
Proof.
  destruct (onmessage_never_raises 5 "oops" open_world) as (H1 & H2 & _).
  destruct (onmessage_never_raises 5 "42" open_world) as (_ & _ & H3).
  destruct (H3 (VNumber (42 : @number integers)) eq_refl ltac:(intros; reflexivity)) as [H4 H5].
  split_and!; [exact H1 | exact (H2 eq_refl) | exact H4 | exact H5].
Defined.



Lemma connect_single_socket_witness :
  connect (Some "p1") open_world = open_world /\
  (length (live_sockets open_world) <= 1)%nat /\
  length (live_sockets (connect (Some "p1") (connect (Some "p1") initial_world))) = 1%nat.
Proof.
  destruct connect_single_socket as (Hnoop & Hone & Htwice).
  split_and!.
  - apply Hnoop. right. by vm_compute.
  - apply Hone, open_world_reachable.
  - apply (Htwice (Some "p1") initial_world).
    + by exists [].
    + by vm_compute.
Defined.

Lemma views_partition_witness :
  let steps := [mkStep (agent_step "thinking" "a") (VString "thinking");
                mkStep (agent_step "llm_text" "b") (VString "llm_text");
                mkStep (agent_step "tool_call" "c") (VString "tool_call")] in
  Permutation steps (activitySteps steps ++ dialogSteps steps) /\
  length (activitySteps steps) = 2%nat /\ length (dialogSteps steps) = 1%nat.
Proof.
  intros steps. split; [|by vm_compute].
  apply views_partition. subst steps.
  repeat (constructor;
    [eexists; split; [reflexivity|]; refine (bool_decide_unpack _ _); by vm_compute|]).
  constructor.
Defined.

(** ** Examples of the further properties *)

Lemma connecting_world_reachable : reachable connecting_world.
Proof. exists [EvMount (Some "p1")]. reflexivity. Defined.

Lemma closed_world_reachable : reachable closed_world.
Proof. exists [EvMount (Some "p1"); EvOpen 0; EvClose 0 1006]. reflexivity. Defined.

Lemma remounted_world_reachable : reachable remounted_world.
Proof.
  exists [EvMount (Some "p1"); EvOpen 0; EvCleanup; EvMount (Some "p1"); EvOpen 1].
  reflexivity.
Defined.

Lemma buffers_after_message_witness :
  liveAssistantContent (store (deliver 1 (agent_step "thinking" "  plan ") initial_world))
    = "plan" /\
  streamingContent (store (deliver 2 (agent_stream_chunk "ab") initial_world)) = "ab".
Proof.
  destruct (buffers_after_message 1 (agent_step "thinking" "  plan ") initial_world
              ltac:(by vm_compute)) as [H1 _].
  destruct (buffers_after_message 2 (agent_stream_chunk "ab") initial_world
              ltac:(by vm_compute)) as [_ H2].
  split; [rewrite H1 | rewrite H2]; by vm_compute.
Defined.

Lemma rejected_content_witness :
  store (deliver 0 ill_typed_step initial_world) =
    addAgentStep (mkStep ill_typed_step (VString "thinking")) initial_store /\
  console (deliver 0 ill_typed_step initial_world) = [ErrorParse TypeError].
Proof.
  destruct (rejected_content 0 ill_typed_step initial_world ltac:(by vm_compute)) as [Hs Hc].
  split; [rewrite Hs; by vm_compute | exact Hc].
Defined.

Lemma heartbeat_only_resets_watchdog_witness :
  deliver 9 heartbeat open_world = resetHeartbeatTimer open_world.
Proof. apply heartbeat_only_resets_watchdog. left. by vm_compute. Defined.

Lemma status_in_range_witness : agentStatus (store open_world) ∈ STATUSES.
Proof. apply status_in_range, open_world_reachable. Defined.

Lemma wsConnected_iff_ws_witness :
  wsConnected (store open_world) = true /\ connection_open (store open_world) = true.
Proof.
  destruct (wsConnected_iff_ws open_world open_world_reachable) as (H1 & H2 & _).
  split; [rewrite H1 | rewrite H2, H1]; by vm_compute.
Defined.

Lemma store_evolves_alone_witness :
  store (deliver_all [(1, agent_step "thinking" "a"); (2, agent_response "b")] initial_world) =
  store (deliver_all [(1, agent_step "thinking" "a"); (2, agent_response "b")] connecting_world).
Proof. apply store_evolves_alone. by vm_compute. Defined.

Lemma timers_never_pile_up_witness :
  (size (heartbeat_timers open_world) <= 1)%nat /\
  (size (reconnect_timers closed_world) <= 1)%nat.
Proof.
  destruct (timers_never_pile_up open_world open_world_reachable) as (H1 & _).
  destruct (timers_never_pile_up closed_world closed_world_reachable) as (_ & H2 & _).
  by split.
Defined.

Lemma cleanup_releases_everything_witness :
  timers (cleanup open_world) = ∅ /\ live_sockets (cleanup open_world) = [] /\
  closing_code <$> sockets (cleanup open_world) !! 0%nat = Some (Some 1000).
Proof.
  destruct (cleanup_releases_everything open_world open_world_reachable)
    as (H1 & _ & _ & _ & _ & H6 & _ & H8).
  split_and!; [exact H1 | exact H6 |].
  by rewrite (H8 0%nat _ ltac:(by vm_compute) ltac:(by vm_compute)).
Defined.

Lemma unmounted_stays_quiet_witness :
  let evs := [EvClose 0 1000; EvSendMessage 5 "hi" None None; EvTimeout 1] in
  timers (run evs (cleanup open_world)) = ∅ /\
  live_sockets (run evs (cleanup open_world)) = [] /\
  length (sockets (run evs (cleanup open_world))) = 1%nat.
Proof.
  intros evs.
  destruct (unmounted_stays_quiet open_world evs open_world_reachable
              ltac:(repeat constructor)) as (H1 & _ & H3 & H4).
  split_and!; [exact H1 | exact H3 | by rewrite H4].
Defined.

Lemma sockets_made_for_project_witness :
  url <$> sockets open_world !! 0%nat = Some "wss://agent.example/ws/chat/p1".
Proof.
  destruct (sockets_made_for_project open_world 0
              (mkSocket "wss://agent.example/ws/chat/p1" OPEN None [] "p1" false)
              open_world_reachable ltac:(by vm_compute)) as [_ Hu].
  by vm_compute.
Defined.

Lemma due_reconnect_opens_socket_witness :
  timers closed_world !! 2%nat = Some (mkTimer (Reconnect "p1") 5000) /\
  length (sockets (step (EvTimeout 2) closed_world)) = 2%nat /\
  wsRef (step (EvTimeout 2) closed_world) = Some 1%nat /\
  reconnect_pending (step (EvTimeout 2) closed_world) = false.
Proof.
  assert (timers closed_world !! 2%nat = Some (mkTimer (Reconnect "p1") 5000)) as Hl
    by (by vm_compute).
  destruct (due_reconnect_opens_socket 2 _ "p1" closed_world closed_world_reachable Hl eq_refl)
    as (_ & Hs & Hw & Hp & _).
  split_and!; [exact Hl | by rewrite Hs | by rewrite Hw | exact Hp].
Defined.

Lemma open_event_publishes_witness :
  ws (store (step (EvOpen 0) connecting_world)) = Some 0%nat /\
  wsConnected (store (step (EvOpen 0) connecting_world)) = true /\
  heartbeat_timers (step (EvOpen 0) connecting_world) =
    {[ 1%nat := mkTimer HeartbeatExpired 45000 ]}.
Proof.
  destruct (open_event_publishes 0 _ connecting_world connecting_world_reachable
              ltac:(by vm_compute) ltac:(by vm_compute)) as (_ & _ & H3 & H4 & _ & H6).
  split_and!; [exact H3 | exact H4 | exact H6].
Defined.

Lemma close_event_disconnects_witness :
  wsRef remounted_world = Some 1%nat /\
  ws_readyState (step (EvClose 0 1000) remounted_world) = Some OPEN /\
  wsConnected (store (step (EvClose 0 1000) remounted_world)) = false /\
  heartbeat_timers (step (EvClose 0 1000) remounted_world) = ∅.
Proof.
  destruct (close_event_disconnects 0 _ 1000 remounted_world remounted_world_reachable
              ltac:(by vm_compute) ltac:(by vm_compute)) as (_ & H2 & H3 & _ & _ & _ & H7).
  destruct (H7 ltac:(by vm_compute)) as [H8 _].
  split_and!; [by vm_compute | rewrite H8; by vm_compute | exact H2 | exact H3].
Defined.

Lemma silent_connection_replaced_witness :
  let w1 := step (EvTimeout 1) open_world in
  let w2 := step (EvClose 0 1006) w1 in
  let w3 := step (EvTimeout (next_timer open_world)) w2 in
  let w4 := step (EvOpen (length (sockets open_world))) w3 in
  closing_code <$> sockets w1 !! 0%nat = Some (Some 4000) /\
  delay <$> timers w2 !! next_timer open_world = Some 5000 /\
  ws (store w4) = Some (length (sockets open_world)) /\
  wsConnected (store w4) = true /\ length (live_sockets w4) = 1%nat.
Proof.
  destruct (silent_connection_replaced 1 _ 0 _ 1006 open_world open_world_reachable
              ltac:(by vm_compute) ltac:(by vm_compute) ltac:(by vm_compute)
              ltac:(by vm_compute) ltac:(by vm_compute) ltac:(done))
    as (H1 & H2 & _ & _ & _ & H5 & H6 & H7).
  split_and!; [by rewrite H1 | by rewrite H2 | exact H5 | exact H6 | exact H7].
Defined.

Lemma sendMessage_transmits_witness :
  outbox <$> sockets (sendMessage 7 "hi" (Some []) None open_world).1 !! 0%nat =
    Some [OutTurn "hi" None None] /\
  length (messages (store (sendMessage 7 "hi" (Some []) None open_world).1)) = 1%nat.
Proof.
  destruct (sendMessage_transmits 7 "hi" (Some []) None open_world 0 _ open_world_reachable
              ltac:(by vm_compute) ltac:(by vm_compute)) as (_ & Hs & Hm & _).
  split; [rewrite Hs | rewrite Hm]; by vm_compute.
Defined.

Lemma stopAgent_effect_witness :
  outbox <$> sockets (stopAgent open_world).1 !! 0%nat = Some [OutStop] /\
  agentStatus (store (stopAgent open_world).1) = "idle" /\
  (stopAgent initial_world).1 = initial_world.
Proof.
  destruct (stopAgent_effect open_world open_world_reachable) as (_ & _ & Hsend).
  destruct (Hsend 0%nat _ ltac:(by vm_compute) ltac:(by vm_compute)) as (Hst & Hs & _).
  destruct (stopAgent_effect initial_world ltac:(by exists [])) as (_ & Hnone & _).
  split_and!; [rewrite Hs; by vm_compute | by rewrite Hst | by apply Hnone].
Defined.

Lemma views_after_step_witness :
  step_type <$> agentSteps (store (deliver 3 kindless_step initial_world)) =
    [VString "agent_step"] /\
  activitySteps (agentSteps (store (deliver 3 kindless_step initial_world))) = [] /\
  dialogSteps (agentSteps (store (deliver 3 kindless_step initial_world))) = [] /\
  actionSteps (agentSteps (store (deliver 3 kindless_step initial_world))) = [].
Proof.
  destruct (views_after_step 3 kindless_step initial_world ltac:(by vm_compute))
    as (H1 & H2 & H3 & H4 & _).
  split_and!; [rewrite H1 | rewrite H2 | rewrite H3 | rewrite H4]; by vm_compute.
Defined.

Lemma working_badges_witness :
  isWorking "error" = true /\ Chat_isWorking "error" = false /\
  status_badge "error" = Some "Работает".
Proof.
  destruct (working_badges "error" ltac:(refine (bool_decide_unpack _ _); by vm_compute))
    as (H1 & _).
  split_and!; [rewrite H1; by vm_compute | by vm_compute | by vm_compute].
Defined.

Lemma handleSend_sends_or_keeps_witness :
  (handleSend 7 (mkComposer "  hi " [] []) open_world).2 = Normal (mkComposer "" [] []) /\
  content <$> (msg <$> messages (store (handleSend 7 (mkComposer "  hi " [] []) open_world).1))
    = [VString "hi"] /\
  handleSend 7 (mkComposer "   " [] []) open_world = (open_world, Normal (mkComposer "   " [] [])).
Proof.
  destruct (handleSend_sends_or_keeps 7 (mkComposer "  hi " [] []) open_world
              open_world_reachable) as [_ Hsend].
  destruct (Hsend ltac:(by vm_compute) ltac:(by vm_compute))
    as (m & _ & Hm & Hr & Hmsgs & _).
  destruct (handleSend_sends_or_keeps 7 (mkComposer "   " [] []) open_world
              open_world_reachable) as [Hkeep _].
  split_and!; [exact Hr | | apply Hkeep; left; by vm_compute].
  rewrite Hmsgs, (Hm ltac:(by vm_compute)). by vm_compute.
Defined.

Lemma typing_dots_witness :
  typing_indicator (store (sendMessage 7 "hi" None None open_world).1) = Some "Думает..." /\
  typing_indicator (store (deliver 8 (agent_step "thinking" "plan") open_world)) = None.
Proof.
  destruct (typing_dots 7 (agent_step "thinking" "plan") "hi" None None open_world)
    as [Hsent _].
  destruct (typing_dots 8 (agent_step "thinking" "plan") "hi" None None open_world)
    as [_ Hstep].
  split.
  - apply Hsent; [apply open_world_reachable | by vm_compute].
  - by apply Hstep; vm_compute.
Defined.

Lemma connect_blocked_only_by_live_socket_witness :
  connect (Some "p1") open_world = open_world /\
  connect (Some "p1") initial_world <> initial_world.
Proof.
  destruct (connect_blocked_only_by_live_socket (Some "p1") open_world open_world_reachable)
    as [_ Hopen].
  destruct (connect_blocked_only_by_live_socket (Some "p1") initial_world
              ltac:(by exists [])) as [_ Hinit].
  split.
  - apply Hopen. right; right. by vm_compute.
  - intros E. apply Hinit in E. by vm_compute in E; destruct E as [?|[?|?]].
Defined.

End Examples.
